(** * mautrix-googlechat: the per-account session of the bridge

    A shallow embedding of [mautrix_googlechat/user.py] (class [User]) and
    the properties of its reconnect loop, its entity cache, its post-connect
    bootstrap and its event router.

    Conventions of the embedding.
    - A coroutine is a function from the answers of its environment (the
      outcome of every awaited call of a collaborator, the clock readings,
      the calls of other coroutines that run while it is suspended) to the
      list of effects it performs, in order, and its result.
    - Python exceptions are results: a coroutine either returns or raises.
      Only instances of [Exception] are modelled; task cancellation is not.
    - [time.time()] is read as a rational number of seconds; [backoff] is a
      Python [int], modelled as [Z].
    - Dictionaries are [gmap]s with string keys. *)

From Stdlib Require Import ZArith QArith Lia Lqa.
From stdpp Require Import gmap strings list pretty sorting.

Local Open Scope Z_scope.

(** ** Collaborators and the effects performed on them *)

(** The members of [mautrix.util.bridge_state.BridgeStateEvent] that
    [user.py] uses. *)
Inductive BridgeStateEvent :=
  | TRANSIENT_DISCONNECT
  | BACKFILLING
  | CONNECTED
  | BAD_CREDENTIALS
  | UNKNOWN_ERROR.

#[global] Instance BridgeStateEvent_eq_dec : EqDecision BridgeStateEvent.
Proof. solve_decision. Defined.

Inductive MessageType := TEXT | NOTICE.

#[global] Instance MessageType_eq_dec : EqDecision MessageType.
Proof. solve_decision. Defined.

Inductive Metric := METRIC_LOGGED_IN | METRIC_CONNECTED.

#[global] Instance Metric_eq_dec : EqDecision Metric.
Proof. solve_decision. Defined.

(** What a coroutine of [User] does to the outside, and the writes to the
    shared flag [_intentional_disconnect] (which another coroutine reads). *)
Inductive Effect :=
  | SetIntentionalDisconnect (b : bool)
  | ClientConnect
  | ClientDisconnect
  | TrackMetric (m : Metric) (value : bool)
  | LogInfo (msg : string)
  | LogWarning (msg : string)
  | LogException (msg : string)
  | LogDebug (msg : string)
  | PushBridgeState (ev : BridgeStateEvent) (message : option string)
  | SendText (text : string) (msgtype : MessageType)
  | Sleep (seconds : Z)
  | ProtoGetSelfUserStatus
  | ProtoGetMembers (member_ids : list string)
  | ProtoGetGroup (conv_id : string)
  | ProtoPaginatedWorld
  | Save
  | PuppetGetByGcid (gcid : string)
  | SwitchMxid (mxid : string)
  | PortalGetByGcid (conv_id : string)
  | UpdateMatrixRoom (conv_id : string)
  | CreateMatrixRoom (conv_id : string)
  | UpdateDirectChats
  | HandleGooglechatEdit (conv_id message : string)
  | HandleGooglechatMessage (conv_id message : string)
  | HandleGooglechatReaction (conv_id reaction : string)
  | HandleGooglechatRedaction (conv_id deletion : string)
  | HandleGooglechatReadReceipts (conv_id receipts : string)
  | MarkRead (conv_id : string) (view_time : Z).

#[global] Instance Effect_eq_dec : EqDecision Effect.
Proof. solve_decision. Defined.

(** The configuration keys read by [send_bridge_notice] and by [sync]. *)
Record Config := {
  disable_bridge_notices : bool;
  unimportant_bridge_notices : bool;
  initial_chat_sync : Z;
}.

(** Exceptions: the ones Python raises in [user.py] itself, and [Failed]
    for whatever a collaborator raises. *)
Inductive Exn :=
  | KeyError (key : string)
  | IndexError
  | InvalidStateError
  | Failed (e : string).

#[global] Instance Exn_eq_dec : EqDecision Exn.
Proof. solve_decision. Defined.

Inductive Result (A : Type) :=
  | Ok (a : A)
  | Raise (e : Exn).
Arguments Ok {A} a.
Arguments Raise {A} e.

(** The answer of a collaborator to an awaited call. *)
Inductive Response (A : Type) :=
  | Answer (a : A)
  | Failure (e : string).
Arguments Answer {A} a.
Arguments Failure {A} e.

(** Coroutines that read and write fields of [User]: from the state
    before to the state after, the effects performed and the result. An
    exception keeps the state and the effects that came before it. *)
Definition M (S A : Type) : Type := S → S * list Effect * Result A.

#[global] Instance M_ret {S} : MRet (M S) := λ A a s, (s, [], Ok a).

#[global] Instance M_bind {S} : MBind (M S) := λ A B f m s,
  match m s with
  | (s1, e1, Ok a) => let '(s2, e2, r) := f a s1 in (s2, e1 ++ e2, r)
  | (s1, e1, Raise x) => (s1, e1, Raise x)
  end.

Definition get_state {S} : M S S := λ s, (s, [], Ok s).
Definition modify {S} (f : S → S) : M S unit := λ s, (f s, [], Ok tt).
Definition raise {S A} (x : Exn) : M S A := λ s, (s, [], Raise x).

(** An effect that does not fail: logging, a metric. *)
Definition perform {S} (e : Effect) : M S unit := λ s, (s, [e], Ok tt).

(** An awaited call of a collaborator, with its answer. *)
Definition await {S A} (e : Effect) (r : Response A) : M S A := λ s,
  (s, [e], match r with Answer a => Ok a | Failure msg => Raise (Failed msg) end).

(** An awaited call that returns nothing; [raises] tells which calls fail. *)
Definition call {S} (raises : Effect → option string) (e : Effect) : M S unit :=
  await e (match raises e with Some msg => Failure msg | None => Answer tt end).

(** [try: m  except Exception: handler]. *)
Definition try_except {S A} (m : M S A) (handler : Exn → M S A) : M S A := λ s,
  match m s with
  | (s1, e1, Ok a) => (s1, e1, Ok a)
  | (s1, e1, Raise x) => let '(s2, e2, r) := handler x s1 in (s2, e1 ++ e2, r)
  end.

(** The result of [m] as a value. *)
Definition catch {S A} (m : M S A) : M S (Result A) := λ s,
  let '(s1, e1, r) := m s in (s1, e1, Ok r).

(** [googlechat.User] and [googlechat.Member], with the fields read. *)
Module googlechat.

Record User := {
  user_id : string;
  name : string;
  first_name : string;
}.

#[global] Instance User_eq_dec : EqDecision User.
Proof. solve_decision. Defined.

Record Member := { user : User }.

End googlechat.

(** [f"{ids}"] for a list of identifiers. *)
Definition py_repr (ids : list string) : string :=
  "[" +:+ String.concat ", " (map (λ s, "'" +:+ s +:+ "'") ids) +:+ "]".

(** [User.send_bridge_notice]. The notice room exists or is created by
    [get_notice_room]; a failure of [send_text] is caught and logged by the
    source and changes nothing for the caller, so the notice is recorded as
    the [SendText] that is attempted. [push_bridge_state] is taken to
    return here; where it is awaited on its own, in [on_connect_later], it
    may raise. *)
Definition send_bridge_notice (cfg : Config) (text : string) (important : bool)
    (state_event : option BridgeStateEvent) : list Effect :=
  match state_event with
  | Some ev => [PushBridgeState ev (Some text)]
  | None => []
  end ++
  (if disable_bridge_notices cfg then []
   else if negb important && negb (unimportant_bridge_notices cfg) then []
   else [SendText text (if important then TEXT else NOTICE)]).

(** ** The session supervisor: [User.start] and [User.stop] *)

Module Supervisor.

(** The fields of [User] the supervisor touches: whether [self.client] is
    set, and the flag. *)
Record Session := {
  client : bool;
  _intentional_disconnect : bool;
}.

(** [User.stop]. *)
Definition stop (u : Session) : Session * list Effect :=
  if client u then
    ({| client := client u; _intentional_disconnect := true |},
     [SetIntentionalDisconnect true; ClientDisconnect])
  else (u, []).

(** [n] calls of [stop()] by other coroutines, one after the other. *)
Fixpoint stops (n : nat) (u : Session) : Session * list Effect :=
  match n with
  | O => (u, [])
  | S n' =>
      let '(u1, e1) := stop u in
      let '(u2, e2) := stops n' u1 in
      (u2, e1 ++ e2)
  end.

(** How [await self.client.connect()] ends. *)
Inductive Outcome :=
  | Returned
  | Raised (e : string).

(** What the environment does during one iteration of the loop of
    [start]: the calls of [stop()] that run while the loop is suspended in
    [connect()], in [send_bridge_notice] and in [asyncio.sleep], how
    [connect()] ends, and the two readings of [time.time()]. *)
Record Turn := {
  stops_during_connect : nat;
  outcome : Outcome;
  now_check : Q;
  stops_during_notice : nat;
  now_record : Q;
  stops_during_sleep : nat;
}.

(** The local variables of [start]. *)
Record Backoff := {
  last_disconnection : Q;
  backoff : Z;
  state_event : BridgeStateEvent;
}.

Definition backoff_reset_in_seconds : Q := 60.

(** [int(backoff * 1.5)]: the product is exact in a double for every
    [backoff] below 2^52, and [int] truncates towards zero. *)
Definition int_times_1_5 (b : Z) : Z := Z.quot (b * 3) 2.

(** Lines 250-256: the new delay and classification. *)
Definition next_backoff (b : Backoff) (now : Q) : Backoff :=
  if Qlt_le_dec (last_disconnection b + backoff_reset_in_seconds) now then
    {| last_disconnection := last_disconnection b;
       backoff := 4;
       state_event := TRANSIENT_DISCONNECT |}
  else
    let backoff' := int_times_1_5 (backoff b) in
    {| last_disconnection := last_disconnection b;
       backoff := backoff';
       state_event := if 60 <? backoff' then UNKNOWN_ERROR else state_event b |}.

Definition set_last_disconnection (b : Backoff) (now : Q) : Backoff :=
  {| last_disconnection := now; backoff := backoff b; state_event := state_event b |}.

Inductive Status :=
  | Finished   (* [start] has returned *)
  | Looping.   (* [start] is at the top of its loop *)

#[global] Instance Status_eq_dec : EqDecision Status.
Proof. solve_decision. Defined.

Definition attribute_error : string :=
  "'NoneType' object has no attribute 'connect'".

(** Lines 236-248: the [try] statement. The result is the error message,
    or [None] when [start] returns. *)
Definition try_connect (t : Turn) (u : Session)
    : Session * list Effect * option string :=
  if client u then
    let '(u1, e1) := stops (stops_during_connect t) u in
    match outcome t with
    | Returned =>
        if _intentional_disconnect u1 then
          (u1, ClientConnect :: e1 ++
               [TrackMetric METRIC_CONNECTED false;
                LogInfo "Client connection finished"], None)
        else
          (u1, ClientConnect :: e1 ++
               [TrackMetric METRIC_CONNECTED false;
                LogWarning "Client connection finished unexpectedly"],
           Some "Client connection finished unexpectedly"%string)
    | Raised e =>
        (u1, ClientConnect :: e1 ++
             [TrackMetric METRIC_CONNECTED false;
              LogException "Exception in connection"],
         Some ("Exception in Google Chat connection: " +:+ e))
    end
  else
    (u, [TrackMetric METRIC_CONNECTED false;
         LogException "Exception in connection"],
     Some ("Exception in Google Chat connection: " +:+ attribute_error)).

(** Lines 250-261: what follows the [try] statement when it did not
    return. *)
Definition back_off (cfg : Config) (t : Turn) (error_msg : string)
    (u : Session) (b : Backoff) : Session * Backoff * list Effect :=
  let b1 := next_backoff b (now_check t) in
  let notice :=
    send_bridge_notice cfg error_msg
      (bool_decide (state_event b1 = UNKNOWN_ERROR)) (Some (state_event b1)) in
  let '(u1, e1) := stops (stops_during_notice t) u in
  let b2 := set_last_disconnection b1 (now_record t) in
  let '(u2, e2) := stops (stops_during_sleep t) u1 in
  (u2, b2,
   notice ++ e1 ++
   [LogDebug ("Reconnecting in " +:+ pretty (backoff b2) +:+ " seconds");
    Sleep (backoff b2)] ++ e2).

(** Where a run of [start] stands: the session, the local variables, the
    effects so far and whether [start] has returned. *)
Record Run := {
  session : Session;
  vars : Backoff;
  trace : list Effect;
  status : Status;
}.

(** One iteration of [while True]. *)
Definition iteration (cfg : Config) (t : Turn) (u : Session) (b : Backoff) : Run :=
  let '(u1, e1, error_msg) := try_connect t u in
  match error_msg with
  | None => {| session := u1; vars := b; trace := e1; status := Finished |}
  | Some msg =>
      let '(u2, b2, e2) := back_off cfg t msg u1 b in
      {| session := u2; vars := b2; trace := e1 ++ e2; status := Looping |}
  end.

(** The effects of [r], then [k] if [r] has not returned. *)
Definition and_then (r : Run) (k : Session → Backoff → Run) : Run :=
  match status r with
  | Finished => r
  | Looping =>
      let r' := k (session r) (vars r) in
      {| session := session r'; vars := vars r';
         trace := trace r ++ trace r'; status := status r' |}
  end.

(** The loop, run against the turns the environment has played so far. *)
Fixpoint loop (cfg : Config) (turns : list Turn) (u : Session) (b : Backoff) : Run :=
  match turns with
  | [] => {| session := u; vars := b; trace := []; status := Looping |}
  | t :: turns' => and_then (iteration cfg t u b) (loop cfg turns')
  end.

Definition backoff_init : Backoff :=
  {| last_disconnection := 0; backoff := 4; state_event := TRANSIENT_DISCONNECT |}.

(** [User.start]. *)
Definition start (cfg : Config) (turns : list Turn) (u : Session) : Run :=
  and_then
    {| session := {| client := client u; _intentional_disconnect := false |};
       vars := backoff_init;
       trace := [SetIntentionalDisconnect false];
       status := Looping |}
    (loop cfg turns).

(** The local variables after an iteration that did not return. *)
Definition after_disconnect (b : Backoff) (t : Turn) : Backoff :=
  set_last_disconnection (next_backoff b (now_check t)) (now_record t).

(** Whether [connect()] returns and the loop then finds the flag set. *)
Definition returns_intentionally (t : Turn) (u : Session) : bool :=
  client u &&
  match outcome t with
  | Returned => _intentional_disconnect (stops (stops_during_connect t) u).1
  | Raised _ => false
  end.

(** The local variables after each of the turns, had none of them ended
    the loop. *)
Fixpoint backoffs (b : Backoff) (turns : list Turn) : list Backoff :=
  match turns with
  | [] => []
  | t :: turns' => after_disconnect b t :: backoffs (after_disconnect b t) turns'
  end.

(** No call of [stop()] during the turn. *)
Definition undisturbed (t : Turn) : bool :=
  bool_decide (stops_during_connect t = 0%nat) &&
  bool_decide (stops_during_notice t = 0%nat) &&
  bool_decide (stops_during_sleep t = 0%nat).


(** The delays slept, in order. *)
Definition delays (tr : list Effect) : list Z :=
  omap (λ e, match e with Sleep s => Some s | _ => None end) tr.

(** The classifications notified, in order. *)
Definition classifications (tr : list Effect) : list BridgeStateEvent :=
  omap (λ e, match e with PushBridgeState ev _ => Some ev | _ => None end) tr.

(** A disconnect observed at clock reading [t], with nothing else going on. *)
Definition disconnect_at (o : Outcome) (t : Q) : Turn :=
  {| stops_during_connect := 0; outcome := o; now_check := t;
     stops_during_notice := 0; now_record := t; stops_during_sleep := 0 |}.

(** A session as [login_complete] leaves it, and a configuration that
    sends every notice. *)
Definition logged_in : Session :=
  {| client := true; _intentional_disconnect := false |}.

Definition all_notices : Config :=
  {| disable_bridge_notices := false; unimportant_bridge_notices := true;
     initial_chat_sync := 10 |}.



(** [stop()] is called while the loop is connected, and [connect()]
    returns. *)
Definition stopped_while_connected : Turn :=
  {| stops_during_connect := 1; outcome := Returned; now_check := 130%Q;
     stops_during_notice := 0; now_record := 130%Q; stops_during_sleep := 0 |}.

(** [stop()] before [start()]: the flag is set when the loop begins. *)
Definition stopped_before : Session := (stop logged_in).1.

End Supervisor.


(** ** The entity cache: [User.get_users] and [User.get_group] *)

Module EntityCache.
Import googlechat.

(** [googlechat.GetGroupResponse]; nothing in [user.py] reads its fields. *)
Record GetGroupResponse := { group : string }.

(** The ids of the members of an answer. *)
Definition member_ids (members : list googlechat.Member) : list string :=
  map (λ m, user_id (user m)) members.

(** The list comprehension of line 310: the requested ids that are not
    keys of [self.users], in order, repetitions kept. *)
Definition req_ids (users : gmap string googlechat.User) (ids : list string) : list string :=
  filter (λ user_id, users !! user_id = None) ids.

(** Lines 319-320: [self.users[member.user.user_id.id] = member.user]. *)
Definition cache_members (users : gmap string googlechat.User) (members : list googlechat.Member)
    : gmap string googlechat.User :=
  foldl (λ us member, <[user_id (user member) := user member]> us) users members.

(** Line 321: [[self.users[user_id] for user_id in ids]]. *)
Fixpoint lookup_all (users : gmap string googlechat.User) (ids : list string)
    : Result (list googlechat.User) :=
  match ids with
  | [] => Ok []
  | user_id :: ids' =>
      match users !! user_id with
      | None => Raise (KeyError user_id)
      | Some u =>
          match lookup_all users ids' with
          | Ok us => Ok (u :: us)
          | Raise e => Raise e
          end
      end
  end.

Definition fetching_users (req : list string) : list Effect :=
  [LogDebug ("Fetching info of users " +:+ py_repr req); ProtoGetMembers req].

(** [User.get_users], called while no other call holds [users_lock].
    [resp] is the answer to [proto_get_members], if it is asked. *)
Definition get_users (resp : Response (list googlechat.Member)) (users : gmap string googlechat.User)
    (ids : list string) : gmap string googlechat.User * list Effect * Result (list googlechat.User) :=
  match req_ids users ids with
  | [] => (users, [], lookup_all users ids)
  | req =>
      match resp with
      | Answer members =>
          let users' := cache_members users members in
          (users', fetching_users req, lookup_all users' ids)
      | Failure e => (users, fetching_users req, Raise (Failed e))
      end
  end.

Definition fetching_group (conv_id : string) : list Effect :=
  [LogDebug ("Fetching info of chat " +:+ conv_id); ProtoGetGroup conv_id].

(** [User.get_group], called while no other call holds [groups_lock]. The
    argument is the conversation id, to which [maugclib.parsers] converts
    either form of [id]. *)
Definition get_group (resp : Response GetGroupResponse)
    (groups : gmap string GetGroupResponse) (conv_id : string)
    : gmap string GetGroupResponse * list Effect * Result GetGroupResponse :=
  match groups !! conv_id with
  | Some g => (groups, [], Ok g)
  | None =>
      (* async with self.groups_lock *)
      match groups !! conv_id with
      | Some g => (groups, [], Ok g)
      | None =>
          match resp with
          | Answer r => (<[conv_id := r]> groups, fetching_group conv_id, Ok r)
          | Failure e => (groups, fetching_group conv_id, Raise (Failed e))
          end
      end
  end.

(** *** Concurrent calls of [get_users]

    Coroutines run one at a time and switch only where they await. A call
    of [get_users] awaits twice: for [users_lock] (when it is taken) and
    for the answer to [proto_get_members]. *)

Inductive UsersTask :=
  | UWaiting (ids : list string)
  | UFetching (ids req : list string)
  | UFinished (r : Result (list googlechat.User)).

Record UsersCache := {
  users : gmap string googlechat.User;
  users_lock : bool;
  users_tasks : list UsersTask;
  users_fetches : list (list string);
}.

Inductive UsersStep :=
  | UCall (ids : list string)
  | UAcquire (i : nat)
  | URespond (i : nat) (resp : Response (list googlechat.Member)).

(** One scheduling step; [None] when the step cannot happen. A call that
    finds the lock free takes it at once; the model lets other steps come
    between, which only adds schedules. *)
Definition users_step (s : UsersStep) (c : UsersCache) : option UsersCache :=
  match s with
  | UCall ids =>
      Some {| users := users c; users_lock := users_lock c;
              users_tasks := users_tasks c ++ [UWaiting ids];
              users_fetches := users_fetches c |}
  | UAcquire i =>
      match users_tasks c !! i with
      | Some (UWaiting ids) =>
          if users_lock c then None else
          match req_ids (users c) ids with
          | [] =>
              Some {| users := users c; users_lock := false;
                      users_tasks :=
                        <[i := UFinished (lookup_all (users c) ids)]> (users_tasks c);
                      users_fetches := users_fetches c |}
          | req =>
              Some {| users := users c; users_lock := true;
                      users_tasks := <[i := UFetching ids req]> (users_tasks c);
                      users_fetches := users_fetches c ++ [req] |}
          end
      | _ => None
      end
  | URespond i resp =>
      match users_tasks c !! i with
      | Some (UFetching ids req) =>
          match resp with
          | Answer members =>
              let users' := cache_members (users c) members in
              Some {| users := users'; users_lock := false;
                      users_tasks :=
                        <[i := UFinished (lookup_all users' ids)]> (users_tasks c);
                      users_fetches := users_fetches c |}
          | Failure e =>
              Some {| users := users c; users_lock := false;
                      users_tasks := <[i := UFinished (Raise (Failed e))]> (users_tasks c);
                      users_fetches := users_fetches c |}
          end
      | _ => None
      end
  end.

Fixpoint users_run (steps : list UsersStep) (c : UsersCache) : option UsersCache :=
  match steps with
  | [] => Some c
  | s :: steps' =>
      match users_step s c with
      | Some c' => users_run steps' c'
      | None => None
      end
  end.

(** A cache lifetime begins in [__init__] and in [logout]: no entry, the
    lock free, no call under way. *)
Definition users_init : UsersCache :=
  {| users := ∅; users_lock := false; users_tasks := []; users_fetches := [] |}.

(** How many of the fetches asked for [user_id]. *)
Definition fetches_of (user_id : string) (fetches : list (list string)) : nat :=
  length (filter (λ req, user_id ∈ req) fetches).

(** Whether the answer has a member for every id of the request. *)
Definition covers (members : list googlechat.Member) (req : list string) : bool :=
  forallb (λ id, bool_decide (id ∈ map (λ m, user_id (user m)) members)) req.

(** Every answer in the schedule is a success that covers its request. *)
Fixpoint users_answers_cover (steps : list UsersStep) (c : UsersCache) : Prop :=
  match steps with
  | [] => True
  | s :: steps' =>
      match s with
      | URespond i resp =>
          match users_tasks c !! i, resp with
          | Some (UFetching _ req), Answer members => covers members req = true
          | Some (UFetching _ _), Failure _ => False
          | _, _ => True
          end
      | _ => True
      end ∧
      match users_step s c with
      | Some c' => users_answers_cover steps' c'
      | None => True
      end
  end.

(** At most one call awaits an answer, and none when the lock is free. *)
Definition users_one_in_flight (c : UsersCache) : Prop :=
  ∀ i j ids req ids' req',
    users_tasks c !! i = Some (UFetching ids req) →
    users_tasks c !! j = Some (UFetching ids' req') → i = j.

Definition users_lock_inv (c : UsersCache) : Prop :=
  (users_lock c = false →
   ∀ i ids req, users_tasks c !! i ≠ Some (UFetching ids req)) ∧
  users_one_in_flight c.

(** Every id asked for is cached or being fetched, and was asked for once. *)
Definition users_fetch_inv (c : UsersCache) : Prop :=
  (∀ req id, req ∈ users_fetches c → id ∈ req →
     is_Some (users c !! id) ∨
     ∃ i ids, users_tasks c !! i = Some (UFetching ids req)) ∧
  (∀ id, fetches_of id (users_fetches c) ≤ 1)%nat.

(** *** Concurrent calls of [get_group] *)

Inductive GroupTask :=
  | GWaiting (conv_id : string)
  | GFetching (conv_id : string)
  | GFinished (r : Result GetGroupResponse).

Record GroupsCache := {
  groups : gmap string GetGroupResponse;
  groups_lock : bool;
  groups_tasks : list GroupTask;
  groups_fetches : list string;
}.

Inductive GroupsStep :=
  | GCall (conv_id : string)
  | GAcquire (i : nat)
  | GRespond (i : nat) (resp : Response GetGroupResponse).

Definition groups_step (s : GroupsStep) (c : GroupsCache) : option GroupsCache :=
  match s with
  | GCall conv_id =>
      match groups c !! conv_id with
      | Some g =>
          Some {| groups := groups c; groups_lock := groups_lock c;
                  groups_tasks := groups_tasks c ++ [GFinished (Ok g)];
                  groups_fetches := groups_fetches c |}
      | None =>
          Some {| groups := groups c; groups_lock := groups_lock c;
                  groups_tasks := groups_tasks c ++ [GWaiting conv_id];
                  groups_fetches := groups_fetches c |}
      end
  | GAcquire i =>
      match groups_tasks c !! i with
      | Some (GWaiting conv_id) =>
          if groups_lock c then None else
          match groups c !! conv_id with
          | Some g =>
              Some {| groups := groups c; groups_lock := false;
                      groups_tasks := <[i := GFinished (Ok g)]> (groups_tasks c);
                      groups_fetches := groups_fetches c |}
          | None =>
              Some {| groups := groups c; groups_lock := true;
                      groups_tasks := <[i := GFetching conv_id]> (groups_tasks c);
                      groups_fetches := groups_fetches c ++ [conv_id] |}
          end
      | _ => None
      end
  | GRespond i resp =>
      match groups_tasks c !! i with
      | Some (GFetching conv_id) =>
          match resp with
          | Answer r =>
              Some {| groups := <[conv_id := r]> (groups c); groups_lock := false;
                      groups_tasks := <[i := GFinished (Ok r)]> (groups_tasks c);
                      groups_fetches := groups_fetches c |}
          | Failure e =>
              Some {| groups := groups c; groups_lock := false;
                      groups_tasks := <[i := GFinished (Raise (Failed e))]> (groups_tasks c);
                      groups_fetches := groups_fetches c |}
          end
      | _ => None
      end
  end.

Fixpoint groups_run (steps : list GroupsStep) (c : GroupsCache) : option GroupsCache :=
  match steps with
  | [] => Some c
  | s :: steps' =>
      match groups_step s c with
      | Some c' => groups_run steps' c'
      | None => None
      end
  end.

Definition groups_init : GroupsCache :=
  {| groups := ∅; groups_lock := false; groups_tasks := []; groups_fetches := [] |}.

(** No answer in the schedule is a failure. *)
Definition groups_answers_succeed (steps : list GroupsStep) : Prop :=
  ∀ i e, GRespond i (Failure e) ∉ steps.

Definition groups_one_in_flight (c : GroupsCache) : Prop :=
  ∀ i j conv_id conv_id',
    groups_tasks c !! i = Some (GFetching conv_id) →
    groups_tasks c !! j = Some (GFetching conv_id') → i = j.

Definition groups_lock_inv (c : GroupsCache) : Prop :=
  (groups_lock c = false →
   ∀ i conv_id, groups_tasks c !! i ≠ Some (GFetching conv_id)) ∧
  groups_one_in_flight c.

Definition groups_fetch_inv (c : GroupsCache) : Prop :=
  (∀ conv_id, conv_id ∈ groups_fetches c →
     is_Some (groups c !! conv_id) ∨
     ∃ i, groups_tasks c !! i = Some (GFetching conv_id)) ∧
  NoDup (groups_fetches c).

(** Two callers ask for the same user, whom the service does not know. *)
Definition unknown_user_twice : list UsersStep :=
  [UCall ["x"]; UCall ["x"]; UAcquire 0; URespond 0 (Answer []); UAcquire 1].

(** Two callers ask for the same group, and the first fetch fails. *)
Definition failed_group_twice : list GroupsStep :=
  [GCall "space:1"; GCall "space:1"; GAcquire 0;
   GRespond 0 (Failure "timeout"); GAcquire 1].

(** Two callers with overlapping ids; the second waits for the lock. *)
Definition alice : googlechat.Member :=
  {| user := {| user_id := "a"; name := "Alice"; first_name := "Alice" |} |}.
Definition bob : googlechat.Member :=
  {| user := {| user_id := "b"; name := "Bob"; first_name := "Bob" |} |}.
Definition carol : googlechat.Member :=
  {| user := {| user_id := "c"; name := "Carol"; first_name := "Carol" |} |}.

Definition overlapping_users : list UsersStep :=
  [UCall ["a"; "b"]; UAcquire 0; UCall ["b"; "c"];
   URespond 0 (Answer [alice; bob]); UAcquire 1; URespond 1 (Answer [carol])].

Definition same_group_twice : list GroupsStep :=
  [GCall "space:1"; GCall "space:1"; GAcquire 0;
   GRespond 0 (Answer {| group := "Room" |}); GAcquire 1].

End EntityCache.

(** ** The post-connect bootstrap: [User.on_connect_later] and [User.sync] *)

Module Bootstrap.

(** [self.name_future]. *)
Inductive Future :=
  | Pending
  | Resolved (result : string)
  | Rejected (e : string).

(** What [on_connect_later] reads of the [Puppet] of the account. *)
Record Puppet := {
  custom_mxid : option string;
  can_auto_login : bool;
}.

(** [googlechat.WorldItemLite]: the conversation id of [item.group_id] and
    the last-activity timestamp. *)
Record WorldItemLite := {
  group_id : string;
  sort_timestamp : Z;
}.

(** The fields of [User] the bootstrap touches, and [mirrored], the
    conversations whose [Portal] has an [mxid]. *)
Record User := {
  mxid : string;
  gcid : option string;
  name : option string;
  name_future : Future;
  mirrored : gset string;
}.

Definition set_gcid (v : option string) (u : User) : User :=
  {| mxid := mxid u; gcid := v; name := name u; name_future := name_future u;
     mirrored := mirrored u |}.
Definition set_name (v : option string) (u : User) : User :=
  {| mxid := mxid u; gcid := gcid u; name := v; name_future := name_future u;
     mirrored := mirrored u |}.
Definition set_name_future (v : Future) (u : User) : User :=
  {| mxid := mxid u; gcid := gcid u; name := name u; name_future := v;
     mirrored := mirrored u |}.
Definition add_mirrored (conv_id : string) (u : User) : User :=
  {| mxid := mxid u; gcid := gcid u; name := name u; name_future := name_future u;
     mirrored := {[conv_id]} ∪ mirrored u |}.

(** The answers of the collaborators during one bootstrap. *)
Record World := {
  self_user_status : Response string;
  self_members : Response (list googlechat.Member);
  puppet : Response Puppet;
  paginated_world : Response (list WorldItemLite);
  raises : Effect → option string;
}.

(** Truth value of an optional string. *)
Definition truthy (s : option string) : bool :=
  match s with
  | Some s => negb (String.eqb s "")
  | None => false
  end.

(** [User.get_self]. (The entry in [by_gcid] is not modelled.) *)
Definition get_self (w : World) : M User googlechat.User :=
  u ← get_state;
  (if truthy (gcid u) then mret tt
   else
     info ← await ProtoGetSelfUserStatus (self_user_status w);
     modify (set_gcid (Some info)));;
  u ← get_state;
  members ← await (ProtoGetMembers [default "" (gcid u)]) (self_members w);
  match members with
  | [] => raise IndexError
  | member :: _ => mret (googlechat.user member)
  end.

(** [asyncio.Future.set_result]. *)
Definition set_result (result : string) : M User unit :=
  u ← get_state;
  match name_future u with
  | Pending => modify (set_name_future (Resolved result))
  | _ => raise InvalidStateError
  end.

(** Lines 370-373. *)
Definition enable_custom_puppet (w : World) : M User unit :=
  u ← get_state;
  p ← await (PuppetGetByGcid (default "" (gcid u))) (puppet w);
  if bool_decide (custom_mxid p ≠ Some (mxid u)) && can_auto_login p then
    perform (LogInfo "Automatically enabling custom puppet");;
    call (raises w) (SwitchMxid (mxid u))
  else mret tt.

(** [items.sort(key=lambda item: item.sort_timestamp, reverse=True)]: a
    stable sort, so items with equal timestamps keep their order. *)
Fixpoint insert_item (item : WorldItemLite) (items : list WorldItemLite)
    : list WorldItemLite :=
  match items with
  | [] => [item]
  | item' :: rest =>
      if sort_timestamp item <? sort_timestamp item'
      then item' :: insert_item item rest
      else item :: items
  end.

Definition sort_items (items : list WorldItemLite) : list WorldItemLite :=
  foldr insert_item [] items.

Definition update_matrix_room (w : World) (conv_id : string) : M User unit :=
  call (raises w) (UpdateMatrixRoom conv_id).

(** Modelled from the spec: [Portal.create_matrix_room], which is not
    part of the sources at hand, "creates a new local mirror": when it
    returns, the portal of the conversation has an [mxid]. *)
Definition create_matrix_room (w : World) (conv_id : string) : M User unit :=
  call (raises w) (CreateMatrixRoom conv_id);;
  modify (add_mirrored conv_id).

(** Lines 408-420: the loop over [enumerate(items)], from [index] on. *)
Fixpoint sync_items (max_sync : Z) (w : World) (index : nat)
    (items : list WorldItemLite) : M User unit :=
  match items with
  | [] => mret tt
  | item :: rest =>
      let conv_id := group_id item in
      perform (PortalGetByGcid conv_id);;
      perform (LogDebug ("Syncing " +:+ conv_id));;
      u ← get_state;
      (if bool_decide (conv_id ∈ mirrored u) then update_matrix_room w conv_id
       else if Z.of_nat index <? max_sync then create_matrix_room w conv_id
       else mret tt);;
      sync_items max_sync w (S index) rest
  end.

(** [User.sync]. *)
Definition sync (cfg : Config) (w : World) : M User unit :=
  perform (LogDebug "Fetching first page of the world");;
  items ← await ProtoPaginatedWorld (paginated_world w);
  sync_items (initial_chat_sync cfg) w 0 (sort_items items);;
  call (raises w) UpdateDirectChats.

(** Lines 359-382: [on_connect_later] once [get_self] has returned. *)
Definition after_get_self (cfg : Config) (w : World)
    (self_info : googlechat.User) : M User unit :=
  call (raises w) (PushBridgeState BACKFILLING None);;
  let own_name :=
    if String.eqb (googlechat.name self_info) ""
    then googlechat.first_name self_info else googlechat.name self_info in
  modify (set_name (Some own_name));;
  perform (LogDebug ("Found own name: " +:+ own_name));;
  set_result own_name;;
  perform (TrackMetric METRIC_CONNECTED true);;
  perform (TrackMetric METRIC_LOGGED_IN true);;
  call (raises w) Save;;
  try_except (enable_custom_puppet w)
    (λ _, perform (LogException "Failed to automatically enable custom puppet"));;
  try_except (sync cfg w)
    (λ _, perform (LogException "Failed to sync conversations and users"));;
  call (raises w) (PushBridgeState CONNECTED None).

(** [User.on_connect_later]. *)
Definition on_connect_later (cfg : Config) (w : World) : M User unit :=
  r ← catch (get_self w);
  match r with
  | Raise _ => perform (LogException "Failed to get own info")
  | Ok self_info => after_get_self cfg w self_info
  end.

(** The conversations given a mirror, and those updated, in order. *)
Definition created (tr : list Effect) : list string :=
  omap (λ e, match e with CreateMatrixRoom c => Some c | _ => None end) tr.

Definition updated (tr : list Effect) : list string :=
  omap (λ e, match e with UpdateMatrixRoom c => Some c | _ => None end) tr.

(** As the specification words it: "the first N conversations (by
    descending recency) that have no existing mirror". *)
Definition first_unmirrored (n : Z) (mirrored : gset string)
    (sorted : list WorldItemLite) : list string :=
  take (Z.to_nat n)
    (filter (λ c, c ∉ mirrored) (map group_id sorted)).

(** As [sync] does it: the conversations with no mirror among the first N
    of the sorted list. *)
Definition unmirrored_of_first (n : Z) (mirrored : gset string)
    (sorted : list WorldItemLite) : list string :=
  filter (λ c, c ∉ mirrored) (map group_id (take (Z.to_nat n) sorted)).

(** An account that logs in for the first time, with one mirrored
    conversation, and collaborators that all answer. *)
Definition fresh_user : User :=
  {| mxid := "@user:example.org"; gcid := None; name := None;
     name_future := Pending; mirrored := {["A"]} |}.

Definition me : googlechat.Member :=
  {| googlechat.user :=
       {| googlechat.user_id := "me"; googlechat.name := "";
          googlechat.first_name := "Me" |} |}.

Definition three_chats : list WorldItemLite :=
  [{| group_id := "B"; sort_timestamp := 1 |};
   {| group_id := "A"; sort_timestamp := 3 |};
   {| group_id := "C"; sort_timestamp := 2 |}].

Definition all_well : World :=
  {| self_user_status := Answer "me";
     self_members := Answer [me];
     puppet := Answer {| custom_mxid := None; can_auto_login := false |};
     paginated_world := Answer three_chats;
     raises := λ _, None |}.

(** The same, but the service refuses to tell who the account is. *)
Definition identity_refused : World :=
  {| self_user_status := Failure "unauthorized";
     self_members := self_members all_well;
     puppet := puppet all_well;
     paginated_world := paginated_world all_well;
     raises := raises all_well |}.

(** The same, but the database refuses to save. *)
Definition save_fails : World :=
  {| self_user_status := self_user_status all_well;
     self_members := self_members all_well;
     puppet := puppet all_well;
     paginated_world := paginated_world all_well;
     raises := λ e, if decide (e = Save) then Some "database is locked" else None |}.

(** The same, but the puppet cannot be fetched and the world neither. *)
Definition puppet_and_sync_fail : World :=
  {| self_user_status := self_user_status all_well;
     self_members := self_members all_well;
     puppet := Failure "no such puppet";
     paginated_world := Failure "timeout";
     raises := raises all_well |}.

(** The account after an earlier connect of the same login: its id is
    known and its name future is resolved. *)
Definition connected_before : User :=
  {| mxid := "@user:example.org"; gcid := Some "me"; name := Some "Me";
     name_future := Resolved "Me"; mirrored := {["A"]} |}.

Definition sync_one : Config :=
  {| disable_bridge_notices := false; unimportant_bridge_notices := true;
     initial_chat_sync := 1 |}.

Definition sync_two : Config :=
  {| disable_bridge_notices := false; unimportant_bridge_notices := true;
     initial_chat_sync := 2 |}.

(** [a] may come before [b] in descending order of last activity. *)
Definition not_older (a b : WorldItemLite) : Prop :=
  sort_timestamp b ≤ sort_timestamp a.

(** How many of the items from [index] on are among the first [max_sync]. *)
Definition window (max_sync : Z) (index : nat) : nat :=
  Z.to_nat (max_sync - Z.of_nat index).

End Bootstrap.

(** ** The event router: [User.on_stream_event] *)

Module Router.

(** [googlechat.Event.EventType]: the member the router tests for, and
    the others by name. *)
Inductive EventType :=
  | MESSAGE_UPDATED
  | OtherEventType (name : string).

#[global] Instance EventType_eq_dec : EqDecision EventType.
Proof. solve_decision. Defined.










End Router.

(** ** Logging out: [User.logout] *)

Module Account.

(** The fields of [User] that [logout] writes. [by_gcid] is the index of
    the class, from remote id to the [mxid] of the account registered under
    it. [dropped] holds the name futures the account no longer refers to,
    latest first, as those who still await them find them. *)
Record Account := {
  session : Supervisor.Session;
  profile : Bootstrap.User;
  refresh_token : option string;
  connected : bool;
  users : gmap string googlechat.User;
  groups : gmap string EntityCache.GetGroupResponse;
  by_gcid : gmap string string;
  dropped : list Bootstrap.Future;
}.

Definition set_session (v : Supervisor.Session) (a : Account) : Account :=
  {| session := v; profile := profile a; refresh_token := refresh_token a;
     connected := connected a; users := users a; groups := groups a;
     by_gcid := by_gcid a; dropped := dropped a |}.
Definition set_profile (v : Bootstrap.User) (a : Account) : Account :=
  {| session := session a; profile := v; refresh_token := refresh_token a;
     connected := connected a; users := users a; groups := groups a;
     by_gcid := by_gcid a; dropped := dropped a |}.
Definition set_refresh_token (v : option string) (a : Account) : Account :=
  {| session := session a; profile := profile a; refresh_token := v;
     connected := connected a; users := users a; groups := groups a;
     by_gcid := by_gcid a; dropped := dropped a |}.
Definition set_connected (v : bool) (a : Account) : Account :=
  {| session := session a; profile := profile a; refresh_token := refresh_token a;
     connected := v; users := users a; groups := groups a;
     by_gcid := by_gcid a; dropped := dropped a |}.
Definition set_users (v : gmap string googlechat.User) (a : Account) : Account :=
  {| session := session a; profile := profile a; refresh_token := refresh_token a;
     connected := connected a; users := v; groups := groups a;
     by_gcid := by_gcid a; dropped := dropped a |}.
Definition set_groups (v : gmap string EntityCache.GetGroupResponse)
    (a : Account) : Account :=
  {| session := session a; profile := profile a; refresh_token := refresh_token a;
     connected := connected a; users := users a; groups := v;
     by_gcid := by_gcid a; dropped := dropped a |}.
Definition set_by_gcid (v : gmap string string) (a : Account) : Account :=
  {| session := session a; profile := profile a; refresh_token := refresh_token a;
     connected := connected a; users := users a; groups := groups a;
     by_gcid := v; dropped := dropped a |}.
Definition set_dropped (v : list Bootstrap.Future) (a : Account) : Account :=
  {| session := session a; profile := profile a; refresh_token := refresh_token a;
     connected := connected a; users := users a; groups := groups a;
     by_gcid := by_gcid a; dropped := v |}.

(** [User.is_logged_in], as a truth value. *)
Definition is_logged_in (a : Account) : bool :=
  Supervisor.client (session a) && connected a.

(** [User.stop], awaited by [logout]: [disconnect()] may raise. *)
Definition stop (raises : Effect → option string) : M Account unit :=
  a ← get_state;
  if Supervisor.client (session a) then
    modify (set_session
      {| Supervisor.client := Supervisor.client (session a);
         Supervisor._intentional_disconnect := true |});;
    perform (SetIntentionalDisconnect true);;
    call raises ClientDisconnect
  else mret tt.

(** [asyncio.Future.done]. *)
Definition done (f : Bootstrap.Future) : bool :=
  match f with
  | Bootstrap.Pending => false
  | _ => true
  end.

(** [self.by_gcid.pop(self.gcid, None)]. *)
Definition pop_by_gcid (a : Account) : Account :=
  match Bootstrap.gcid (profile a) with
  | Some gcid => set_by_gcid (delete gcid (by_gcid a)) a
  | None => a
  end.

(** Lines 280-282: the name future is failed unless it is done, and a
    new one takes its place. *)
Definition renew_name_future (a : Account) : Account :=
  let old := Bootstrap.name_future (profile a) in
  let left := if done old then old else Bootstrap.Rejected "logged out" in
  set_dropped (left :: dropped a)
    (set_profile (Bootstrap.set_name_future Bootstrap.Pending (profile a)) a).

(** [User.logout]. *)
Definition logout (raises : Effect → option string) : M Account unit :=
  perform (TrackMetric METRIC_LOGGED_IN false);;
  stop raises;;
  modify (λ a, set_session
    {| Supervisor.client := false;
       Supervisor._intentional_disconnect :=
         Supervisor._intentional_disconnect (session a) |} a);;
  modify pop_by_gcid;;
  modify (λ a, set_profile (Bootstrap.set_gcid None (profile a)) a);;
  modify (set_refresh_token None);;
  modify (set_connected false);;
  modify (set_users ∅);;
  modify (set_groups ∅);;
  modify (λ a, set_profile (Bootstrap.set_name None (profile a)) a);;
  modify renew_name_future.

(** An account that is connected, with its caches filled, next to another
    account in the index. *)
Definition signed_in : Account :=
  {| session := {| Supervisor.client := true;
                   Supervisor._intentional_disconnect := false |};
     profile := Bootstrap.connected_before;
     refresh_token := Some "token";
     connected := true;
     users := {[ "me" := googlechat.user Bootstrap.me ]};
     groups := {[ "A" := {| EntityCache.group := "A" |} ]};
     by_gcid := {[ "me" := "@user:example.org"; "you" := "@other:example.org" ]};
     dropped := [] |}.

(** [disconnect()] raises. *)
Definition disconnect_fails (e : Effect) : option string :=
  if decide (e = ClientDisconnect) then Some "connection reset" else None.

End Account.

(** ** The notice room: [User.get_notice_room] *)

Module NoticeRoom.

(** Where a call of [get_notice_room] stands: at [async with
    self._notice_room_lock], awaiting [create_room], awaiting [save], or
    done, with the value returned. *)
Inductive Task :=
  | Waiting
  | Creating
  | Saving
  | Finished (r : Result (option string)).

(** [self.notice_room] and the lock, the calls under way, and what the
    calls have asked of the collaborators: the [creation_content] of each
    [create_room] (the value of "m.federate", if the key is there), the rooms
    that [create_room] has returned, and the number of calls of [save]. *)
Record State := {
  notice_room : option string;
  lock : bool;
  tasks : list Task;
  create_requests : list (option bool);
  rooms : list string;
  saves : nat;
}.

Inductive Step :=
  | Call
  | Acquire (i : nat)
  | Created (i : nat) (resp : Response string)
  | Saved (i : nat) (error : option string).

Definition set_task (i : nat) (t : Task) (lock' : bool) (c : State) : State :=
  {| notice_room := notice_room c; lock := lock';
     tasks := <[i := t]> (tasks c);
     create_requests := create_requests c; rooms := rooms c; saves := saves c |}.

(** One scheduling step; [None] when the step cannot happen. [federate] is
    [config["bridge.federate_rooms"]]. A call that finds the lock free takes
    it at once; the model lets other steps come between, which only adds
    schedules. *)
Definition step (federate : bool) (s : Step) (c : State) : option State :=
  match s with
  | Call =>
      Some {| notice_room := notice_room c; lock := lock c;
              tasks := tasks c ++
                [if Bootstrap.truthy (notice_room c)
                 then Finished (Ok (notice_room c)) else Waiting];
              create_requests := create_requests c; rooms := rooms c;
              saves := saves c |}
  | Acquire i =>
      match tasks c !! i with
      | Some Waiting =>
          if lock c then None
          else if Bootstrap.truthy (notice_room c) then
            Some (set_task i (Finished (Ok (notice_room c))) false c)
          else
            Some {| notice_room := notice_room c; lock := true;
                    tasks := <[i := Creating]> (tasks c);
                    create_requests := create_requests c ++
                      [if federate then None else Some false];
                    rooms := rooms c; saves := saves c |}
      | _ => None
      end
  | Created i resp =>
      match tasks c !! i with
      | Some Creating =>
          match resp with
          | Answer room =>
              Some {| notice_room := Some room; lock := lock c;
                      tasks := <[i := Saving]> (tasks c);
                      create_requests := create_requests c;
                      rooms := rooms c ++ [room]; saves := S (saves c) |}
          | Failure e => Some (set_task i (Finished (Raise (Failed e))) false c)
          end
      | _ => None
      end
  | Saved i error =>
      match tasks c !! i with
      | Some Saving =>
          match error with
          | None => Some (set_task i (Finished (Ok (notice_room c))) false c)
          | Some e => Some (set_task i (Finished (Raise (Failed e))) false c)
          end
      | _ => None
      end
  end.

Fixpoint run (federate : bool) (steps : list Step) (c : State) : option State :=
  match steps with
  | [] => Some c
  | s :: steps' =>
      match step federate s c with
      | Some c' => run federate steps' c'
      | None => None
      end
  end.

(** The account as [__init__] leaves it, with the notice room of its
    database row. *)
Definition init (room : option string) : State :=
  {| notice_room := room; lock := false; tasks := [];
     create_requests := []; rooms := []; saves := 0 |}.

(** The call holds the lock. *)
Definition in_lock (t : Task) : bool :=
  match t with
  | Creating | Saving => true
  | _ => false
  end.

(** What holds of every state a schedule leads to. *)
Record invariant (c : State) : Prop := {
  lock_free : lock c = false → ∀ i t, tasks c !! i = Some t → in_lock t = false;
  lock_taken : lock c = true → ∃ i t, tasks c !! i = Some t ∧ in_lock t = true;
  one_in_lock : ∀ i j t t',
    tasks c !! i = Some t → tasks c !! j = Some t' →
    in_lock t = true → in_lock t' = true → i = j;
  creating_without_room : ∀ i,
    tasks c !! i = Some Creating → Bootstrap.truthy (notice_room c) = false;
  rooms_kept : ∀ room,
    room ∈ rooms c → room ≠ "" → notice_room c = Some room;
  one_room : (length (filter (λ room, room ≠ "") (rooms c)) ≤ 1)%nat;
  results_agree : ∀ i r,
    tasks c !! i = Some (Finished (Ok r)) → Bootstrap.truthy r = true →
    r = notice_room c;
  saves_counted : saves c = length (rooms c);
}.

(** The room is there and no call is about to save it. *)
Definition settled (c : State) : Prop :=
  Bootstrap.truthy (notice_room c) = true ∧
  ∀ i, tasks c !! i ≠ Some Saving.

(** Two calls at a time when the account has no room; the second finds
    the room of the first. *)
Definition two_callers : list Step :=
  [Call; Call; Acquire 0; Created 0 (Answer "!notices:example.org");
   Saved 0 None; Acquire 1].

(** The room is created but cannot be saved; a later call. *)
Definition save_fails_then_call : list Step :=
  [Call; Acquire 0; Created 0 (Answer "!notices:example.org");
   Saved 0 (Some "database is locked"); Call].

End NoticeRoom.

(** ** The index of accounts: [get_by_mxid], [get_by_gcid],
    [all_logged_in] *)

Module Registry.

(** A [User] object, as far as the index reads it. *)
Record Entry := {
  mxid : string;
  gcid : option string;
}.

(** [User.by_mxid] and [User.by_gcid]. *)
Record Index := {
  by_mxid : gmap string Entry;
  by_gcid : gmap string Entry;
}.

(** What a lookup asks of the database, and what it logs. *)
Inductive Query :=
  | DbGetByMxid (mxid : string)
  | DbGetByGcid (gcid : string)
  | DbAllLoggedIn
  | DbInsert (mxid : string)
  | Debug (line : string).

(** [User._add_to_cache]. *)
Definition _add_to_cache (user : Entry) (ix : Index) : Index :=
  {| by_mxid := <[mxid user := user]> (by_mxid ix);
     by_gcid := match gcid user with
                | Some g => if String.eqb g "" then by_gcid ix
                            else <[g := user]> (by_gcid ix)
                | None => by_gcid ix
                end |}.

(** The collaborators of a lookup: [Puppet.get_id_from_mxid] as a truth
    value, [az.bot_mxid], the answer of the database to the one query the
    lookup makes, and whether [insert()] raises. *)
Record World := {
  is_puppet : string → bool;
  bot_mxid : string;
  row : Response (option Entry);
  insert_error : option string;
}.

(** [User.get_by_mxid], one call run on its own: the index before and
    after, the queries made and the result. *)
Definition get_by_mxid (w : World) (m : string) (create : bool) (ix : Index)
    : Index * list Query * Result (option Entry) :=
  if is_puppet w m || String.eqb m (bot_mxid w) then (ix, [], Ok None)
  else
    match by_mxid ix !! m with
    | Some user => (ix, [], Ok (Some user))
    | None =>
        match row w with
        | Failure e => (ix, [DbGetByMxid m], Raise (Failed e))
        | Answer (Some user) =>
            (_add_to_cache user ix, [DbGetByMxid m], Ok (Some user))
        | Answer None =>
            if create then
              let user := {| mxid := m; gcid := None |} in
              let asked := [DbGetByMxid m;
                            Debug ("Creating user instance for " +:+ m);
                            DbInsert m] in
              match insert_error w with
              | Some e => (ix, asked, Raise (Failed e))
              | None => (_add_to_cache user ix, asked, Ok (Some user))
              end
            else (ix, [DbGetByMxid m], Ok None)
        end
    end.

(** [User.get_by_gcid], one call run on its own. *)
Definition get_by_gcid (w : World) (g : string) (ix : Index)
    : Index * list Query * Result (option Entry) :=
  match by_gcid ix !! g with
  | Some user => (ix, [], Ok (Some user))
  | None =>
      match row w with
      | Failure e => (ix, [DbGetByGcid g], Raise (Failed e))
      | Answer (Some user) =>
          (_add_to_cache user ix, [DbGetByGcid g], Ok (Some user))
      | Answer None => (ix, [DbGetByGcid g], Ok None)
      end
  end.



(** A bridge whose puppets live under [@googlechat_]. *)
Definition example_world (answer : Response (option Entry)) : World :=
  {| is_puppet := λ m, String.prefix "@googlechat_" m;
     bot_mxid := "@googlechatbot:example.org";
     row := answer; insert_error := None |}.

Definition alice : Entry :=
  {| mxid := "@alice:example.org"; gcid := Some "1001" |}.

Definition bob : Entry :=
  {| mxid := "@bob:example.org"; gcid := None |}.

Definition empty_index : Index := {| by_mxid := ∅; by_gcid := ∅ |}.

End Registry.

(** ** Further observations on runs of the supervisor *)

Module Observations.
Import Supervisor.

(** The classification that goes with a delay: line 255. *)
Definition severity (delay : Z) : BridgeStateEvent :=
  if 60 <? delay then UNKNOWN_ERROR else TRANSIENT_DISCONNECT.





(** A call of [get_group] awaits the answer only for a conversation that
    is not cached. *)
Definition groups_fetching_uncached (c : EntityCache.GroupsCache) : Prop :=
  ∀ i conv_id,
    EntityCache.groups_tasks c !! i = Some (EntityCache.GFetching conv_id) →
    EntityCache.groups c !! conv_id = None.

(** The lock is taken exactly while a call awaits an answer. *)
Definition users_lock_held_by_fetch (c : EntityCache.UsersCache) : Prop :=
  EntityCache.users_lock c = true ↔
  ∃ i ids req,
    EntityCache.users_tasks c !! i = Some (EntityCache.UFetching ids req).

Definition groups_lock_held_by_fetch (c : EntityCache.GroupsCache) : Prop :=
  EntityCache.groups_lock c = true ↔
  ∃ i conv_id,
    EntityCache.groups_tasks c !! i = Some (EntityCache.GFetching conv_id).

(** A fetch fails while a second caller waits; the second caller then
    takes the lock. *)
Definition fetch_fails_then_retry : list EntityCache.UsersStep :=
  [EntityCache.UCall ["a"]; EntityCache.UAcquire 0; EntityCache.UCall ["a"];
   EntityCache.URespond 0 (Failure "timeout"); EntityCache.UAcquire 1].

(** Items with this timestamp, in order. *)
Definition at_time (t : Z) (items : list Bootstrap.WorldItemLite)
    : list Bootstrap.WorldItemLite :=
  filter (λ item, Bootstrap.sort_timestamp item = t) items.

(** Four conversations, two of them active at the same time. *)
Definition four_chats : list Bootstrap.WorldItemLite :=
  [{| Bootstrap.group_id := "D"; Bootstrap.sort_timestamp := 5 |};
   {| Bootstrap.group_id := "E"; Bootstrap.sort_timestamp := 7 |};
   {| Bootstrap.group_id := "F"; Bootstrap.sort_timestamp := 5 |};
   {| Bootstrap.group_id := "G"; Bootstrap.sort_timestamp := 1 |}].

(** The bridge states reported, in order. *)
Definition pushed (tr : list Effect) : list BridgeStateEvent :=
  classifications tr.

(** [self_info.name or self_info.first_name]: line 361. *)
Definition own_name (self_info : googlechat.User) : string :=
  if String.eqb (googlechat.name self_info) ""
  then googlechat.first_name self_info else googlechat.name self_info.

(** The fields of the account other than the mirrors are the same. *)
Definition same_account (u u' : Bootstrap.User) : Prop :=
  Bootstrap.mxid u' = Bootstrap.mxid u ∧ Bootstrap.gcid u' = Bootstrap.gcid u ∧
  Bootstrap.name u' = Bootstrap.name u ∧
  Bootstrap.name_future u' = Bootstrap.name_future u.

(** The same collaborators as [all_well], but no room can be created
    for conversation C. *)
Definition no_room_for_c : Bootstrap.World :=
  {| Bootstrap.self_user_status := Bootstrap.self_user_status Bootstrap.all_well;
     Bootstrap.self_members := Bootstrap.self_members Bootstrap.all_well;
     Bootstrap.puppet := Bootstrap.puppet Bootstrap.all_well;
     Bootstrap.paginated_world := Bootstrap.paginated_world Bootstrap.all_well;
     Bootstrap.raises := λ e,
       if decide (e = CreateMatrixRoom "C") then Some "rate limited" else None |}.

(** The same collaborators, but the member request times out. *)
Definition members_refused : Bootstrap.World :=
  {| Bootstrap.self_user_status := Bootstrap.self_user_status Bootstrap.all_well;
     Bootstrap.self_members := Failure "timeout";
     Bootstrap.puppet := Bootstrap.puppet Bootstrap.all_well;
     Bootstrap.paginated_world := Bootstrap.paginated_world Bootstrap.all_well;
     Bootstrap.raises := Bootstrap.raises Bootstrap.all_well |}.

(** The same, but the answer to the member request is empty. *)
Definition no_members : Bootstrap.World :=
  {| Bootstrap.self_user_status := Bootstrap.self_user_status Bootstrap.all_well;
     Bootstrap.self_members := Answer [];
     Bootstrap.puppet := Bootstrap.puppet Bootstrap.all_well;
     Bootstrap.paginated_world := Bootstrap.paginated_world Bootstrap.all_well;
     Bootstrap.raises := Bootstrap.raises Bootstrap.all_well |}.



End Observations.

(** * Properties of the session supervisor *)

Section SupervisorFacts.
Import Supervisor.
Local Open Scope Z_scope.

Lemma delays_app (l k : list Effect) : delays (l ++ k) = delays l ++ delays k.
Proof. apply omap_app. Qed.

Lemma classifications_app (l k : list Effect) :
  classifications (l ++ k) = classifications l ++ classifications k.
Proof. apply omap_app. Qed.



Lemma stops_flag (n : nat) (u : Session) :
  _intentional_disconnect (stops n u).1 =
  _intentional_disconnect u || (client u && negb (Nat.eqb n 0)).
Proof.
  revert u. induction n as [|n IH]; intros u; cbn [stops Nat.eqb negb].
  - rewrite andb_false_r, orb_false_r. done.
  - unfold stop. destruct (client u) eqn:Hc.
    + specialize (IH {| client := true; _intentional_disconnect := true |}).
      destruct (stops n _) as [u2 e2]. simpl in *. rewrite IH.
      by rewrite orb_true_r.
    + specialize (IH u). destruct (stops n u) as [u2 e2]. simpl in *.
      rewrite IH, Hc. simpl. by rewrite orb_false_r.
Qed.

Lemma stops_quiet (n : nat) (u : Session) :
  delays (stops n u).2 = [] ∧ classifications (stops n u).2 = [].
Proof.
  revert u. induction n as [|n IH]; intros u; simpl; [done|].
  unfold stop. destruct (client u).
  - specialize (IH {| client := true; _intentional_disconnect := true |}).
    destruct (stops n _) as [u2 e2]. simpl in *. done.
  - specialize (IH u). destruct (stops n u) as [u2 e2]. simpl in *. done.
Qed.

Lemma send_bridge_notice_quiet cfg text important ev :
  delays (send_bridge_notice cfg text important (Some ev)) = [] ∧
  classifications (send_bridge_notice cfg text important (Some ev)) = [ev].
Proof.
  unfold send_bridge_notice.
  destruct (disable_bridge_notices cfg), important,
    (unimportant_bridge_notices cfg); done.
Qed.

(** The effects of the [try] statement: no delay, no notification. *)
Lemma try_connect_quiet (t : Turn) (u : Session) :
  delays (try_connect t u).1.2 = [] ∧ classifications (try_connect t u).1.2 = [].
Proof.
  unfold try_connect. destruct (client u); [|done].
  pose proof (stops_quiet (stops_during_connect t) u) as [Hd Hc].
  destruct (stops _ u) as [u1 e1]. simpl in *.
  destruct (outcome t); [destruct (_intentional_disconnect u1)|]; simpl;
    rewrite delays_app, classifications_app, Hd, Hc; done.
Qed.

(** The effects of lines 250-261: one notification, then one sleep. *)
Lemma back_off_spec cfg (t : Turn) msg (u : Session) (b : Backoff) :
  let b' := set_last_disconnection (next_backoff b (now_check t)) (now_record t) in
  (back_off cfg t msg u b).1.2 = b' ∧
  delays (back_off cfg t msg u b).2 = [backoff b'] ∧
  classifications (back_off cfg t msg u b).2 = [state_event b'] ∧
  (back_off cfg t msg u b).1.1 =
    (stops (stops_during_sleep t) (stops (stops_during_notice t) u).1).1.
Proof.
  intros b'. unfold back_off.
  pose proof (stops_quiet (stops_during_notice t) u) as [Hd1 Hc1].
  destruct (stops (stops_during_notice t) u) as [u1 e1]. cbn [fst snd] in *.
  pose proof (stops_quiet (stops_during_sleep t) u1) as [Hd2 Hc2].
  destruct (stops (stops_during_sleep t) u1) as [u2 e2].
  cbn [fst snd] in *.
  pose proof (send_bridge_notice_quiet cfg msg
    (bool_decide (state_event (next_backoff b (now_check t)) = UNKNOWN_ERROR))
    (state_event (next_backoff b (now_check t)))) as [Hd0 Hc0].
  rewrite !delays_app, !classifications_app, Hd0, Hc0, Hd1, Hc1, Hd2, Hc2.
  subst b'. repeat split; reflexivity.
Qed.

Lemma and_then_assoc (r : Run) (k1 k2 : Session → Backoff → Run) :
  and_then (and_then r k1) k2 = and_then r (λ u b, and_then (k1 u b) k2).
Proof.
  unfold and_then. destruct (status r) eqn:Hr; simpl; [by rewrite Hr|].
  destruct (status (k1 _ _)) eqn:Hk; simpl; rewrite ?Hk; [done|].
  by rewrite app_assoc.
Qed.

Lemma and_then_ext (r : Run) (k1 k2 : Session → Backoff → Run) :
  (∀ u b, k1 u b = k2 u b) → and_then r k1 = and_then r k2.
Proof. intros H. unfold and_then. by rewrite H. Qed.

Lemma loop_snoc cfg (turns : list Turn) (t : Turn) (u : Session) (b : Backoff) :
  loop cfg (turns ++ [t]) u b = and_then (loop cfg turns u b) (iteration cfg t).
Proof.
  revert u b. induction turns as [|t0 turns IH]; intros u b; simpl.
  - unfold and_then at 2. simpl. unfold and_then.
    destruct (iteration cfg t u b) as [u1 b1 tr1 []]; simpl; [done|].
    by rewrite app_nil_r.
  - rewrite and_then_assoc. by apply and_then_ext.
Qed.

(** A run of [start] against one more turn is the run so far followed by
    one iteration. *)
Lemma start_snoc cfg (turns : list Turn) (t : Turn) (u : Session) :
  start cfg (turns ++ [t]) u = and_then (start cfg turns u) (iteration cfg t).
Proof.
  unfold start. rewrite and_then_assoc. apply and_then_ext. intros.
  apply loop_snoc.
Qed.

Lemma iteration_returns cfg (t : Turn) (u : Session) (b : Backoff) :
  returns_intentionally t u = true →
  status (iteration cfg t u b) = Finished ∧
  vars (iteration cfg t u b) = b ∧
  delays (trace (iteration cfg t u b)) = [] ∧
  classifications (trace (iteration cfg t u b)) = [].
Proof.
  unfold returns_intentionally, iteration. intros H.
  pose proof (try_connect_quiet t u) as [Hd Hc]. revert H Hd Hc.
  unfold try_connect. destruct (client u); [|done].
  destruct (stops _ u) as [u1 e1]. cbn [fst snd andb].
  destruct (outcome t); [|done]. intros ->. done.
Qed.

Lemma iteration_retries cfg (t : Turn) (u : Session) (b : Backoff) :
  returns_intentionally t u = false →
  status (iteration cfg t u b) = Looping ∧
  vars (iteration cfg t u b) = after_disconnect b t ∧
  delays (trace (iteration cfg t u b)) = [backoff (after_disconnect b t)] ∧
  classifications (trace (iteration cfg t u b)) =
    [state_event (after_disconnect b t)].
Proof.
  unfold returns_intentionally, iteration. intros H.
  pose proof (try_connect_quiet t u) as [Hd Hc]. revert H Hd Hc.
  assert (∀ u1 e1 msg, delays e1 = [] → classifications e1 = [] →
    let r := (let '(u2, b2, e2) := back_off cfg t msg u1 b in
              {| session := u2; vars := b2; trace := e1 ++ e2; status := Looping |}) in
    status r = Looping ∧ vars r = after_disconnect b t ∧
    delays (trace r) = [backoff (after_disconnect b t)] ∧
    classifications (trace r) = [state_event (after_disconnect b t)]) as Hk.
  { intros u1 e1 msg Hd Hc.
    pose proof (back_off_spec cfg t msg u1 b) as (Hb & Hd2 & Hc2 & _).
    destruct (back_off cfg t msg u1 b) as [[u2 b2] e2]. cbn [fst snd] in *.
    simpl. rewrite delays_app, classifications_app, Hd, Hc, Hd2, Hc2. subst b2.
    done. }
  unfold try_connect. destruct (client u).
  - destruct (stops _ u) as [u1 e1]. cbn [fst snd andb].
    destruct (outcome t).
    + intros ->. intros. by apply Hk.
    + intros. by apply Hk.
  - intros. by apply Hk.
Qed.

Lemma start_nil cfg (u : Session) :
  vars (start cfg [] u) = backoff_init ∧ status (start cfg [] u) = Looping ∧
  trace (start cfg [] u) = [SetIntentionalDisconnect false].
Proof. done. Qed.




Lemma int_times_1_5_grows (b : Z) : 0 ≤ b → b ≤ int_times_1_5 b.
Proof.
  intros H. unfold int_times_1_5. rewrite Z.quot_div_nonneg by lia.
  apply Z.div_le_lower_bound; lia.
Qed.

Lemma after_disconnect_ge_4 (b : Backoff) (t : Turn) :
  4 ≤ backoff b → 4 ≤ backoff (after_disconnect b t).
Proof.
  intros H. unfold after_disconnect, next_backoff. simpl.
  destruct (Qlt_le_dec _ _); simpl; [lia|].
  pose proof (int_times_1_5_grows (backoff b)). lia.
Qed.



Lemma start_loop cfg (turns : list Turn) (u : Session) :
  let r := loop cfg turns {| client := client u; _intentional_disconnect := false |}
             backoff_init in
  session (start cfg turns u) = session r ∧ vars (start cfg turns u) = vars r ∧
  status (start cfg turns u) = status r ∧
  trace (start cfg turns u) = SetIntentionalDisconnect false :: trace r.
Proof. done. Qed.

Lemma last_cons_default {A} (x d : A) (l : list A) :
  List.last (x :: l) d = List.last l x.
Proof.
  revert x d. induction l as [|y l IH]; intros x d; [done|].
  change (List.last (x :: y :: l) d) with (List.last (y :: l) d).
  by rewrite (IH y d), (IH y x).
Qed.

Lemma loop_delays cfg (turns : list Turn) (u : Session) (b : Backoff) :
  delays (trace (loop cfg turns u b)) `prefix_of` map backoff (backoffs b turns) ∧
  (status (loop cfg turns u b) = Looping →
   delays (trace (loop cfg turns u b)) = map backoff (backoffs b turns) ∧
   classifications (trace (loop cfg turns u b)) =
     map state_event (backoffs b turns) ∧
   vars (loop cfg turns u b) = List.last (backoffs b turns) b).
Proof.
  revert u b. induction turns as [|t turns IH]; intros u b;
    cbn [loop backoffs map].
  { split; [apply prefix_nil|done]. }
  unfold and_then. destruct (returns_intentionally t u) eqn:E.
  - destruct (iteration_returns cfg t u b E) as (Hs & _ & Hd & _).
    rewrite Hs, Hd. split; [apply prefix_nil|intros Hst; congruence].
  - destruct (iteration_retries cfg t u b E) as (Hs & Hv & Hd & Hc).
    rewrite Hs. cbn [trace status vars].
    rewrite delays_app, classifications_app, Hd, Hc, Hv.
    destruct (IH (session (iteration cfg t u b)) (after_disconnect b t))
      as [Hp Hl].
    split.
    + by apply (prefix_app [_]).
    + intros Hst. destruct (Hl Hst) as (-> & -> & ->).
      by rewrite last_cons_default.
Qed.

Lemma stops_0 (u : Session) : stops 0 u = (u, []).
Proof. done. Qed.

Lemma stops_flag_false (n : nat) (u : Session) :
  _intentional_disconnect (stops n u).1 = false → _intentional_disconnect u = false.
Proof. rewrite stops_flag. by destruct (_intentional_disconnect u). Qed.

Lemma iteration_undisturbed cfg (t : Turn) (u : Session) (b : Backoff) :
  undisturbed t = true → _intentional_disconnect u = false →
  status (iteration cfg t u b) = Looping ∧
  _intentional_disconnect (session (iteration cfg t u b)) = false.
Proof.
  unfold undisturbed. rewrite !andb_true_iff, !bool_decide_eq_true.
  intros [[H1 H2] H3] Hf. unfold iteration, try_connect, back_off.
  rewrite H1, H2, H3.
  destruct (client u); cbn [stops]; [destruct (outcome t); rewrite ?Hf|]; done.
Qed.

(** Without a call of [stop()] the loop goes on. *)
Lemma loop_undisturbed cfg (turns : list Turn) (u : Session) (b : Backoff) :
  forallb undisturbed turns = true → _intentional_disconnect u = false →
  status (loop cfg turns u b) = Looping ∧
  _intentional_disconnect (session (loop cfg turns u b)) = false.
Proof.
  revert u b. induction turns as [|t turns IH]; intros u b; simpl; [done|].
  rewrite andb_true_iff. intros [Ht Hts] Hf.
  destruct (iteration_undisturbed cfg t u b Ht Hf) as [Hs Hf'].
  unfold and_then. rewrite Hs. simpl. by apply IH.
Qed.



Lemma start_delays_undisturbed cfg (turns : list Turn) (u : Session) :
  forallb undisturbed turns = true →
  status (start cfg turns u) = Looping ∧
  delays (trace (start cfg turns u)) = map backoff (backoffs backoff_init turns).
Proof.
  intros H. destruct (start_loop cfg turns u) as (_ & _ & -> & ->).
  destruct (loop_undisturbed cfg turns
    {| client := client u; _intentional_disconnect := false |} backoff_init H)
    as [Hs _]; [done|].
  split; [done|]. by apply loop_delays.
Qed.




















Lemma returns_intentionally_false (t : Turn) (u : Session) :
  (∃ e, outcome t = Raised e) ∨
  (_intentional_disconnect u = false ∧ stops_during_connect t = 0%nat) →
  returns_intentionally t u = false.
Proof.
  unfold returns_intentionally. intros [[e ->]|[Hf Hn]].
  - by rewrite andb_false_r.
  - rewrite Hn. cbn [stops fst]. rewrite Hf. destruct (outcome t); by rewrite andb_false_r.
Qed.



Lemma forallb_false_exists {A} (f : A → bool) (l : list A) :
  forallb f l = false → ∃ x, x ∈ l ∧ f x = false.
Proof.
  induction l as [|x l IH]; [done|]. simpl. destruct (f x) eqn:E.
  - intros H. destruct (IH H) as (y & Hy & Hf). exists y. split; [by right|done].
  - intros _. exists x. split; [by left|done].
Qed.

(** C10. [start] clears the flag before its loop, so a run does not
    depend on the value [stop()] left there earlier: the first return of
    [connect()] ends the loop only if [stop()] was called during that
    [connect()], and a run that has ended contains a turn during which
    [stop()] was called. *)
Theorem start_clears_stale_flag cfg (turns : list Turn) (u : Session) :
  (∃ tr, trace (start cfg turns u) = SetIntentionalDisconnect false :: tr) ∧
  start cfg turns u =
    start cfg turns {| client := client u; _intentional_disconnect := false |} ∧
  (∀ t, stops_during_connect t = 0%nat → status (start cfg [t] u) = Looping) ∧
  (status (start cfg turns u) = Finished →
   ∃ t, t ∈ turns ∧ undisturbed t = false).
Proof.
  split; [|split; [|split]].
  - destruct (start_loop cfg turns u) as (_ & _ & _ & ->). eauto.
  - done.
  - intros t Ht.
    change [t] with ([] ++ [t]). rewrite start_snoc. unfold and_then.
    cbn [start and_then status session vars loop].
    assert (returns_intentionally t
      {| client := client u; _intentional_disconnect := false |} = false) as E
      by (apply returns_intentionally_false; right; done).
    by destruct (iteration_retries cfg t _ backoff_init E) as (-> & _).
  - intros Hf. destruct (forallb undisturbed turns) eqn:E.
    + destruct (start_delays_undisturbed cfg turns u E) as [Hl _]. congruence.
    + by apply forallb_false_exists.
Qed.

(** [stop()] before [start()] does not end the loop; [stop()] during
    [connect()] does. *)
Lemma start_clears_stale_flag_witness :
  _intentional_disconnect stopped_before = true ∧
  status (start all_notices [disconnect_at Returned 100%Q] stopped_before)
    = Looping ∧
  status (start all_notices [stopped_while_connected] stopped_before) = Finished ∧
  ∃ t, t ∈ [stopped_while_connected] ∧ undisturbed t = false.
Proof.
  split; [reflexivity|]. split; [|split; [reflexivity|]].
  - exact (proj1 (proj2 (proj2 (start_clears_stale_flag all_notices [] stopped_before)))
      (disconnect_at Returned 100%Q) eq_refl).
  - exact (proj2 (proj2 (proj2 (start_clears_stale_flag all_notices
      [stopped_while_connected] stopped_before))) eq_refl).
Defined.

End SupervisorFacts.

(** * Properties of the entity cache *)

Section EntityCacheFacts.
Import googlechat EntityCache.

Lemma elem_of_req_ids (users : gmap string googlechat.User) (ids : list string) (id : string) :
  id ∈ req_ids users ids ↔ id ∈ ids ∧ users !! id = None.
Proof. unfold req_ids. rewrite list_elem_of_filter. tauto. Qed.

Lemma req_ids_nil (users : gmap string googlechat.User) (ids : list string) :
  req_ids users ids = [] ↔ ∀ id, id ∈ ids → is_Some (users !! id).
Proof.
  split.
  - intros H id Hid. destruct (users !! id) eqn:E; [eauto|].
    assert (id ∈ req_ids users ids) as Hin by (by apply elem_of_req_ids).
    rewrite H in Hin. by apply elem_of_nil in Hin.
  - intros H. destruct (req_ids users ids) as [|id req] eqn:E; [done|].
    assert (id ∈ req_ids users ids) as Hin by (rewrite E; left).
    apply elem_of_req_ids in Hin as [Hid Hnone].
    destruct (H id Hid) as [u Hu]. congruence.
Qed.

(** The keys after caching the members of an answer. *)
Lemma cache_members_is_Some (users : gmap string googlechat.User) (members : list googlechat.Member)
    (id : string) :
  is_Some (cache_members users members !! id) ↔
  is_Some (users !! id) ∨ id ∈ member_ids members.
Proof.
  unfold cache_members, member_ids. revert users.
  induction members as [|m members IH]; intros users; simpl.
  - rewrite elem_of_nil. tauto.
  - rewrite IH, elem_of_cons, lookup_insert_is_Some.
    destruct (decide (user_id (user m) = id)) as [->|Hne]; [tauto|].
    split.
    + intros [[? | [_ ?]] | ?]; tauto.
    + intros [? | [? | ?]]; [tauto|congruence|tauto].
Qed.

Lemma lookup_all_ok (users : gmap string googlechat.User) (ids : list string) :
  (∀ id, id ∈ ids → is_Some (users !! id)) →
  ∃ us, lookup_all users ids = Ok us ∧ length us = length ids ∧
        ∀ i id, ids !! i = Some id → us !! i = users !! id.
Proof.
  induction ids as [|id ids IH]; intros H; simpl.
  - exists []. done.
  - destruct (H id) as [u Hu]; [by left|]. rewrite Hu.
    destruct IH as (us & -> & Hlen & Hus).
    { intros id' Hid'. apply H. by right. }
    exists (u :: us). split; [done|]. split; [simpl; by rewrite Hlen|].
    intros [|i] id'; simpl; [by intros [= <-]|]. apply Hus.
Qed.

Lemma lookup_all_raise (users : gmap string googlechat.User) (ids : list string) (id : string) :
  id ∈ ids → users !! id = None →
  ∃ key, lookup_all users ids = Raise (KeyError key) ∧ key ∈ ids ∧
         users !! key = None.
Proof.
  induction ids as [|id0 ids IH]; intros Hin Hnone.
  { by apply elem_of_nil in Hin. }
  simpl. destruct (users !! id0) as [u|] eqn:E.
  - apply elem_of_cons in Hin as [->|Hin]; [congruence|].
    destruct (IH Hin Hnone) as (key & -> & Hk & Hkn).
    exists key. split; [done|]. split; [by right|done].
  - exists id0. split; [done|]. split; [by left|done].
Qed.

(** What a call of [get_users] leaves in the cache when it fetched. *)
Lemma get_users_fetched (members : list googlechat.Member) (users : gmap string googlechat.User)
    (ids : list string) :
  req_ids users ids ≠ [] →
  get_users (Answer members) users ids =
    (cache_members users members, fetching_users (req_ids users ids),
     lookup_all (cache_members users members) ids).
Proof. unfold get_users. by destruct (req_ids users ids). Qed.

Lemma get_users_cached (resp : Response (list googlechat.Member)) (users : gmap string googlechat.User)
    (ids : list string) :
  req_ids users ids = [] →
  get_users resp users ids = (users, [], lookup_all users ids).
Proof. unfold get_users. by intros ->. Qed.

(** C9. [get_users] raises [KeyError] for a requested id that is neither
    cached nor in the answer, after caching the members of the answer; it
    returns one profile per requested id, in order, when every requested id
    is cached or in the answer, and only then. *)
Theorem get_users_key_error :
  get_users (Answer [{| user := {| user_id := "a"; name := "A"; first_name := "" |} |}])
    ∅ ["a"; "b"] =
    ({["a" := {| user_id := "a"; name := "A"; first_name := "" |}]},
     fetching_users ["a"; "b"], Raise (KeyError "b")) ∧
  ∀ (members : list googlechat.Member) (users : gmap string googlechat.User) (ids : list string),
    let users' := (get_users (Answer members) users ids).1.1 in
    let result := (get_users (Answer members) users ids).2 in
    ((∀ id, id ∈ ids → is_Some (users !! id) ∨ id ∈ member_ids members) →
     ∃ us, result = Ok us ∧ length us = length ids ∧
           ∀ i id, ids !! i = Some id → us !! i = users' !! id) ∧
    (∀ id, id ∈ ids → users !! id = None → id ∉ member_ids members →
     users' = cache_members users members ∧
     ∃ key, result = Raise (KeyError key) ∧ key ∈ ids ∧
            users !! key = None ∧ key ∉ member_ids members).
Proof.
  split; [reflexivity|]. intros members users ids users' result.
  subst users' result. split.
  - intros Hall. destruct (req_ids users ids) as [|r req] eqn:E.
    + rewrite get_users_cached by done. cbn [fst snd].
      apply lookup_all_ok. by apply req_ids_nil.
    + rewrite get_users_fetched by (by rewrite E). cbn [fst snd].
      apply lookup_all_ok. intros id Hid. apply cache_members_is_Some. auto.
  - intros id Hid Hnone Hnot.
    assert (req_ids users ids ≠ []) as Hreq.
    { intros Hnil. rewrite req_ids_nil in Hnil.
      destruct (Hnil id Hid) as [u Hu]. congruence. }
    rewrite get_users_fetched by done. cbn [fst snd]. split; [done|].
    assert (cache_members users members !! id = None) as Hmiss.
    { apply eq_None_not_Some. rewrite cache_members_is_Some.
      intros [[u Hu]|?]; [congruence|done]. }
    destruct (lookup_all_raise _ ids id Hid Hmiss) as (key & Hr & Hk & Hkn).
    exists key. split; [done|]. split; [done|].
    apply eq_None_not_Some in Hkn. rewrite cache_members_is_Some in Hkn.
    split.
    + apply eq_None_not_Some. tauto.
    + tauto.
Qed.

(** One id cached and one returned; and an id the answer lacks. *)
Lemma get_users_key_error_witness :
  (∃ us, (get_users (Answer [{| user := {| user_id := "b"; name := "B"; first_name := "" |} |}])
            {["a" := {| user_id := "a"; name := "A"; first_name := "" |}]} ["a"; "b"]).2
         = Ok us ∧ length us = 2%nat) ∧
  ∃ key, (get_users (Answer []) ∅ ["c"]).2 = Raise (KeyError key) ∧ key ∈ ["c"].
Proof.
  split.
  - destruct (proj1 (proj2 get_users_key_error
      [{| user := {| user_id := "b"; name := "B"; first_name := "" |} |}]
      {["a" := {| user_id := "a"; name := "A"; first_name := "" |}]} ["a"; "b"]))
      as (us & Hus & Hlen & _).
    + intros id Hid. apply elem_of_cons in Hid as [->|Hid].
      * left. by rewrite lookup_singleton_eq.
      * apply list_elem_of_singleton in Hid as ->. right. by left.
    + by exists us.
  - destruct (proj2 (proj2 get_users_key_error [] ∅ ["c"]) "c")
      as (_ & key & Hr & Hk & _).
    + by left.
    + done.
    + by intros ?%elem_of_nil.
    + by exists key.
Defined.

(** C7. When [proto_get_members], or [proto_get_group], raises, the call
    raises the same error and leaves the cache as it was; each id of the
    failed fetch is still missing, and the next call for the same ids asks
    for them again. *)
Theorem failed_fetch_is_not_cached (e : string) :
  (∀ (users : gmap string googlechat.User) (ids : list string),
     req_ids users ids ≠ [] →
     get_users (Failure e) users ids =
       (users, fetching_users (req_ids users ids), Raise (Failed e)) ∧
     (∀ id, id ∈ req_ids users ids → users !! id = None) ∧
     ∀ resp, ProtoGetMembers (req_ids users ids) ∈ (get_users resp users ids).1.2) ∧
  (∀ (groups : gmap string GetGroupResponse) (conv_id : string),
     groups !! conv_id = None →
     get_group (Failure e) groups conv_id =
       (groups, fetching_group conv_id, Raise (Failed e)) ∧
     ∀ resp, ProtoGetGroup conv_id ∈ (get_group resp groups conv_id).1.2).
Proof.
  split.
  - intros users ids Hreq. split; [|split].
    + unfold get_users. by destruct (req_ids users ids).
    + intros id Hid. by apply elem_of_req_ids in Hid as [_ ?].
    + intros resp. unfold get_users.
      destruct (req_ids users ids) as [|r req]; [done|].
      destruct resp; cbn [fst snd]; unfold fetching_users; by right; left.
  - intros groups conv_id Hnone. split.
    + unfold get_group. by rewrite Hnone.
    + intros resp. unfold get_group. rewrite Hnone.
      destruct resp; cbn [fst snd]; unfold fetching_group; by right; left.
Qed.

(** A timeout on both fetches, with an empty cache. *)
Lemma failed_fetch_witness :
  get_users (Failure "timeout") ∅ ["a"; "b"] =
    (∅, fetching_users ["a"; "b"], Raise (Failed "timeout")) ∧
  ProtoGetMembers ["a"; "b"] ∈ (get_users (Answer []) ∅ ["a"; "b"]).1.2 ∧
  get_group (Failure "timeout") ∅ "space:1" =
    (∅, fetching_group "space:1", Raise (Failed "timeout")).
Proof.
  assert (req_ids (∅ : gmap string googlechat.User) ["a"; "b"] ≠ []) as Hreq
    by (vm_compute; discriminate).
  destruct (failed_fetch_is_not_cached "timeout") as [Husers Hgroups].
  destruct (Husers ∅ ["a"; "b"] Hreq) as (H1 & _ & H2).
  destruct (Hgroups ∅ "space:1" (lookup_empty _)) as [H3 _].
  split; [exact H1|]. split; [exact (H2 (Answer []))|exact H3].
Defined.

Lemma lookup_snoc_Some {A} (l : list A) (x y : A) (i : nat) :
  (l ++ [x]) !! i = Some y → l !! i = Some y ∨ y = x.
Proof.
  rewrite lookup_app_Some. intros [?|[_ H]]; [by left|right].
  destruct (i - length l)%nat; simpl in H; [congruence|done].
Qed.

Lemma users_step_lock_inv (s : UsersStep) (c c' : UsersCache) :
  users_lock_inv c → users_step s c = Some c' → users_lock_inv c'.
Proof.
  intros [Hfree Hone] Hstep. destruct s as [ids|i|i resp]; simpl in Hstep.
  - injection Hstep as <-. split; cbn [users_lock users_tasks].
    + intros Hl j ids' req Hj. apply lookup_snoc_Some in Hj as [Hj|?]; [|done].
      by apply (Hfree Hl j ids' req).
    + intros j k ids1 req1 ids2 req2 Hj Hk.
      apply lookup_snoc_Some in Hj as [Hj|?]; [|done].
      apply lookup_snoc_Some in Hk as [Hk|?]; [|done]. eauto.
  - destruct (users_tasks c !! i) as [[ids| |]|] eqn:Hi; try done.
    destruct (users_lock c) eqn:Hl; [done|]. specialize (Hfree eq_refl).
    destruct (req_ids (users c) ids) as [|r req] eqn:Hreq;
      injection Hstep as <-; split; cbn [users_lock users_tasks].
    + intros _ j ids' req' Hj.
      apply list_lookup_insert_Some in Hj as [(_ & ? & _)|[_ Hj]]; [done|].
      by apply (Hfree j ids' req').
    + intros j k ids1 req1 ids2 req2 Hj Hk.
      apply list_lookup_insert_Some in Hj as [(_ & ? & _)|[_ Hj]]; [done|].
      by destruct (Hfree j ids1 req1).
    + done.
    + intros j k ids1 req1 ids2 req2 Hj Hk.
      apply list_lookup_insert_Some in Hj as [(<- & _)|[_ Hj]];
        [|by destruct (Hfree j ids1 req1)].
      apply list_lookup_insert_Some in Hk as [(<- & _)|[_ Hk]];
        [done|by destruct (Hfree k ids2 req2)].
  - destruct (users_tasks c !! i) as [[|ids req|]|] eqn:Hi; try done.
    assert (∀ r j ids' req',
      <[i := UFinished r]> (users_tasks c) !! j ≠ Some (UFetching ids' req')) as Hnone.
    { intros r j ids' req' Hj.
      apply list_lookup_insert_Some in Hj as [(_ & ? & _)|[Hne Hj]]; [done|].
      apply Hne. eapply Hone; eauto. }
    destruct resp as [members|e]; injection Hstep as <-; split;
      cbn [users_lock users_tasks]; try (intros _; by apply Hnone).
    + intros j k ids1 req1 ids2 req2 Hj. by apply Hnone in Hj.
    + intros j k ids1 req1 ids2 req2 Hj. by apply Hnone in Hj.
Qed.

Lemma fetches_of_app (id : string) (l : list (list string)) (req : list string) :
  fetches_of id (l ++ [req]) =
  (fetches_of id l + if decide (id ∈ req) then 1 else 0)%nat.
Proof.
  unfold fetches_of. rewrite filter_app, length_app. f_equal.
  rewrite filter_cons, filter_nil. by destruct (decide (id ∈ req)).
Qed.

Lemma fetches_of_none (id : string) (l : list (list string)) :
  (∀ req, req ∈ l → id ∉ req) → fetches_of id l = 0%nat.
Proof.
  unfold fetches_of. induction l as [|req l IH]; intros H; [done|].
  rewrite filter_cons. destruct (decide (id ∈ req)) as [Hin|_].
  - destruct (H req); [by left|done].
  - apply IH. intros req' Hreq'. apply H. by right.
Qed.

Lemma cache_members_mono (users : gmap string googlechat.User) (members : list googlechat.Member)
    (id : string) :
  is_Some (users !! id) → is_Some (cache_members users members !! id).
Proof. intros H. apply cache_members_is_Some. by left. Qed.

Lemma covers_elem_of (members : list googlechat.Member) (req : list string) (id : string) :
  covers members req = true → id ∈ req → id ∈ member_ids members.
Proof.
  unfold covers. rewrite forallb_forall. intros H Hid.
  apply list_elem_of_In in Hid. apply H in Hid. by apply bool_decide_eq_true in Hid.
Qed.

Lemma users_step_fetch_inv (s : UsersStep) (steps : list UsersStep)
    (c c' : UsersCache) :
  users_lock_inv c → users_fetch_inv c →
  users_answers_cover (s :: steps) c →
  users_step s c = Some c' → users_fetch_inv c'.
Proof.
  intros [Hfree Hone] [Hcached Honce] [Hcov _] Hstep.
  destruct s as [ids|i|i resp]; simpl in Hstep.
  - injection Hstep as <-. split; cbn [users users_tasks users_fetches]; [|done].
    intros req id Hreq Hid. destruct (Hcached req id Hreq Hid) as [?|(j & ids' & Hj)];
      [by left|right].
    exists j, ids'. by apply lookup_app_l_Some.
  - destruct (users_tasks c !! i) as [[ids| |]|] eqn:Hi; try done.
    destruct (users_lock c) eqn:Hl; [done|]. specialize (Hfree eq_refl).
    assert (∀ req id, req ∈ users_fetches c → id ∈ req → is_Some (users c !! id))
      as Hall.
    { intros req id Hreq Hid.
      destruct (Hcached req id Hreq Hid) as [?|(j & ids' & Hj)]; [done|].
      by destruct (Hfree j ids' req). }
    destruct (req_ids (users c) ids) as [|r req] eqn:Hreq;
      injection Hstep as <-; split; cbn [users users_tasks users_fetches].
    + intros req id Hr Hid. left. eauto.
    + done.
    + intros req' id Hr Hid. apply elem_of_app in Hr as [Hr|Hr]; [left; eauto|].
      apply list_elem_of_singleton in Hr as ->. right. exists i, ids.
      apply list_lookup_insert_eq. by eapply lookup_lt_Some.
    + intros id. rewrite fetches_of_app.
      destruct (decide (id ∈ r :: req)) as [Hin|_]; [|specialize (Honce id); lia].
      rewrite fetches_of_none; [lia|]. intros req' Hr Hid.
      rewrite <- Hreq in Hin. apply elem_of_req_ids in Hin as [_ Hnone].
      destruct (Hall req' id Hr Hid) as [u Hu]. congruence.
  - destruct (users_tasks c !! i) as [[|ids req|]|] eqn:Hi; try done.
    destruct resp as [members|e]; [|done]. injection Hstep as <-.
    split; cbn [users users_tasks users_fetches]; [|done].
    intros req' id Hr Hid. left.
    destruct (Hcached req' id Hr Hid) as [?|(j & ids' & Hj)].
    + by apply cache_members_mono.
    + assert (j = i) as -> by (eapply Hone; eauto).
      assert (req' = req) as -> by congruence.
      apply cache_members_is_Some. right. by eapply covers_elem_of.
Qed.

Lemma users_init_inv : users_lock_inv users_init ∧ users_fetch_inv users_init.
Proof.
  split; split.
  - intros _ i ids req H. by destruct i.
  - intros i j ids req ids' req' H. by destruct i.
  - intros req id H. by apply elem_of_nil in H.
  - intros id. unfold fetches_of. simpl. lia.
Qed.

Lemma users_run_lock_inv (steps : list UsersStep) (c c' : UsersCache) :
  users_lock_inv c → users_run steps c = Some c' → users_lock_inv c'.
Proof.
  revert c. induction steps as [|s steps IH]; intros c Hinv; simpl.
  - by intros [= <-].
  - destruct (users_step s c) as [c1|] eqn:Hs; [|done].
    apply IH. by eapply users_step_lock_inv.
Qed.

Lemma users_run_fetch_inv (steps : list UsersStep) (c c' : UsersCache) :
  users_lock_inv c → users_fetch_inv c → users_answers_cover steps c →
  users_run steps c = Some c' → users_fetch_inv c'.
Proof.
  revert c. induction steps as [|s steps IH]; intros c Hl Hf Hcov; simpl.
  - by intros [= <-].
  - destruct (users_step s c) as [c1|] eqn:Hs; [|done].
    apply IH.
    + by eapply users_step_lock_inv.
    + by eapply users_step_fetch_inv.
    + destruct Hcov as [_ Hcov]. by rewrite Hs in Hcov.
Qed.

Lemma groups_step_lock_inv (s : GroupsStep) (c c' : GroupsCache) :
  groups_lock_inv c → groups_step s c = Some c' → groups_lock_inv c'.
Proof.
  intros [Hfree Hone] Hstep. destruct s as [conv|i|i resp]; simpl in Hstep.
  - assert (∃ t, (∀ x, t ≠ GFetching x) ∧
        c' = {| groups := groups c; groups_lock := groups_lock c;
                groups_tasks := groups_tasks c ++ [t];
                groups_fetches := groups_fetches c |}) as (t & Ht & ->).
    { destruct (groups c !! conv); injection Hstep as <-;
        eexists; (split; [|reflexivity]); done. }
    split; cbn [groups_lock groups_tasks].
    + intros Hl j conv' Hj. apply lookup_snoc_Some in Hj as [Hj|?].
      * by apply (Hfree Hl j conv').
      * by eapply Ht.
    + intros j k conv1 conv2 Hj Hk.
      apply lookup_snoc_Some in Hj as [Hj|?]; [|by edestruct Ht].
      apply lookup_snoc_Some in Hk as [Hk|?]; [|by edestruct Ht]. eauto.
  - destruct (groups_tasks c !! i) as [[conv| |]|] eqn:Hi; try done.
    destruct (groups_lock c) eqn:Hl; [done|]. specialize (Hfree eq_refl).
    destruct (groups c !! conv) as [g|] eqn:Hg;
      injection Hstep as <-; split; cbn [groups_lock groups_tasks].
    + intros _ j conv' Hj.
      apply list_lookup_insert_Some in Hj as [(_ & ? & _)|[_ Hj]]; [done|].
      by apply (Hfree j conv').
    + intros j k conv1 conv2 Hj Hk.
      apply list_lookup_insert_Some in Hj as [(_ & ? & _)|[_ Hj]]; [done|].
      by destruct (Hfree j conv1).
    + done.
    + intros j k conv1 conv2 Hj Hk.
      apply list_lookup_insert_Some in Hj as [(<- & _)|[_ Hj]];
        [|by destruct (Hfree j conv1)].
      apply list_lookup_insert_Some in Hk as [(<- & _)|[_ Hk]];
        [done|by destruct (Hfree k conv2)].
  - destruct (groups_tasks c !! i) as [[|conv|]|] eqn:Hi; try done.
    assert (∀ r j conv',
      <[i := GFinished r]> (groups_tasks c) !! j ≠ Some (GFetching conv')) as Hnone.
    { intros r j conv' Hj.
      apply list_lookup_insert_Some in Hj as [(_ & ? & _)|[Hne Hj]]; [done|].
      apply Hne. eapply Hone; eauto. }
    destruct resp as [r|e]; injection Hstep as <-; split;
      cbn [groups_lock groups_tasks]; try (intros _; by apply Hnone).
    + intros j k conv1 conv2 Hj. by apply Hnone in Hj.
    + intros j k conv1 conv2 Hj. by apply Hnone in Hj.
Qed.

Lemma groups_step_fetch_inv (s : GroupsStep) (c c' : GroupsCache) :
  groups_lock_inv c → groups_fetch_inv c →
  (∀ i e, s ≠ GRespond i (Failure e)) →
  groups_step s c = Some c' → groups_fetch_inv c'.
Proof.
  intros [Hfree Hone] [Hcached Hnodup] Hok Hstep.
  destruct s as [conv|i|i resp]; simpl in Hstep.
  - assert (∃ t,
        c' = {| groups := groups c; groups_lock := groups_lock c;
                groups_tasks := groups_tasks c ++ [t];
                groups_fetches := groups_fetches c |}) as (t & ->).
    { destruct (groups c !! conv); injection Hstep as <-; eauto. }
    split; cbn [groups groups_tasks groups_fetches]; [|done].
    intros conv' Hin. destruct (Hcached conv' Hin) as [?|(j & Hj)]; [by left|right].
    exists j. by apply lookup_app_l_Some.
  - destruct (groups_tasks c !! i) as [[conv| |]|] eqn:Hi; try done.
    destruct (groups_lock c) eqn:Hl; [done|]. specialize (Hfree eq_refl).
    assert (∀ conv', conv' ∈ groups_fetches c → is_Some (groups c !! conv'))
      as Hall.
    { intros conv' Hin. destruct (Hcached conv' Hin) as [?|(j & Hj)]; [done|].
      by destruct (Hfree j conv'). }
    destruct (groups c !! conv) as [g|] eqn:Hg;
      injection Hstep as <-; split; cbn [groups groups_tasks groups_fetches].
    + intros conv' Hin. left. eauto.
    + done.
    + intros conv' Hin. apply elem_of_app in Hin as [Hin|Hin]; [left; eauto|].
      apply list_elem_of_singleton in Hin as ->. right. exists i.
      apply list_lookup_insert_eq. by eapply lookup_lt_Some.
    + apply NoDup_app. split; [done|]. split; [|apply NoDup_singleton].
      intros conv' Hin Hin'. apply list_elem_of_singleton in Hin' as ->.
      destruct (Hall conv Hin) as [g Hg']. congruence.
  - destruct (groups_tasks c !! i) as [[|conv|]|] eqn:Hi; try done.
    destruct resp as [r|e]; [|by destruct (Hok i e)]. injection Hstep as <-.
    split; cbn [groups groups_tasks groups_fetches]; [|done].
    intros conv' Hin. left. rewrite lookup_insert_is_Some.
    destruct (decide (conv = conv')) as [|Hne]; [by left|right]. split; [done|].
    destruct (Hcached conv' Hin) as [?|(j & Hj)]; [done|].
    assert (j = i) as -> by (eapply Hone; eauto). congruence.
Qed.

Lemma groups_init_inv : groups_lock_inv groups_init ∧ groups_fetch_inv groups_init.
Proof.
  split; split.
  - intros _ i conv H. by destruct i.
  - intros i j conv conv' H. by destruct i.
  - intros conv H. by apply elem_of_nil in H.
  - apply NoDup_nil_2.
Qed.

Lemma groups_run_lock_inv (steps : list GroupsStep) (c c' : GroupsCache) :
  groups_lock_inv c → groups_run steps c = Some c' → groups_lock_inv c'.
Proof.
  revert c. induction steps as [|s steps IH]; intros c Hinv; simpl.
  - by intros [= <-].
  - destruct (groups_step s c) as [c1|] eqn:Hs; [|done].
    apply IH. by eapply groups_step_lock_inv.
Qed.

Lemma groups_run_fetch_inv (steps : list GroupsStep) (c c' : GroupsCache) :
  groups_lock_inv c → groups_fetch_inv c → groups_answers_succeed steps →
  groups_run steps c = Some c' → groups_fetch_inv c'.
Proof.
  revert c. induction steps as [|s steps IH]; intros c Hl Hf Hok; simpl.
  - by intros [= <-].
  - destruct (groups_step s c) as [c1|] eqn:Hs; [|done].
    apply IH.
    + by eapply groups_step_lock_inv.
    + eapply groups_step_fetch_inv; [done..| |done].
      intros i e ->. apply (Hok i e). by left.
    + intros i e Hin. apply (Hok i e). by right.
Qed.

(** C5, as amended. In every state a schedule of concurrent calls of
    [get_users], and of [get_group], can reach, at most one call is awaiting
    the answer to a fetch. When every fetch succeeds, and every answer to
    [proto_get_members] has a member for each id asked, no user id and no
    group is asked for twice. *)
Theorem fetches_not_duplicated :
  (∀ (steps : list UsersStep) (c : UsersCache),
     users_run steps users_init = Some c →
     users_one_in_flight c ∧
     (users_answers_cover steps users_init →
      ∀ id, (fetches_of id (users_fetches c) ≤ 1)%nat)) ∧
  (∀ (steps : list GroupsStep) (c : GroupsCache),
     groups_run steps groups_init = Some c →
     groups_one_in_flight c ∧
     (groups_answers_succeed steps → NoDup (groups_fetches c))).
Proof.
  split.
  - intros steps c Hrun. destruct users_init_inv as [Hl Hf]. split.
    + by destruct (users_run_lock_inv steps _ _ Hl Hrun).
    + intros Hcov. by destruct (users_run_fetch_inv steps _ _ Hl Hf Hcov Hrun).
  - intros steps c Hrun. destruct groups_init_inv as [Hl Hf]. split.
    + by destruct (groups_run_lock_inv steps _ _ Hl Hrun).
    + intros Hok. by destruct (groups_run_fetch_inv steps _ _ Hl Hf Hok Hrun).
Qed.

(** C5, counterexample: a user the service does not return, and a group
    whose fetch fails, are fetched again by the next caller. *)
Lemma fetch_repeated :
  (∃ c, users_run unknown_user_twice users_init = Some c ∧
        users_fetches c = [["x"]; ["x"]] ∧
        fetches_of "x" (users_fetches c) = 2%nat) ∧
  (∃ c, groups_run failed_group_twice groups_init = Some c ∧
        groups_fetches c = ["space:1"; "space:1"]).
Proof. split; eexists; (split; [reflexivity|]); vm_compute; done. Qed.

(** Overlapping requests: the second caller fetches only what is still
    missing. *)
Lemma fetches_not_duplicated_witness :
  (∃ c, users_run overlapping_users users_init = Some c ∧
        users_answers_cover overlapping_users users_init ∧
        users_fetches c = [["a"; "b"]; ["c"]] ∧
        ∀ id, (fetches_of id (users_fetches c) ≤ 1)%nat) ∧
  (∃ c, groups_run same_group_twice groups_init = Some c ∧
        groups_answers_succeed same_group_twice ∧
        groups_fetches c = ["space:1"] ∧ NoDup (groups_fetches c)).
Proof.
  destruct fetches_not_duplicated as [Hu Hg]. split.
  - destruct (users_run overlapping_users users_init) as [c|] eqn:E;
      [|by vm_compute in E].
    assert (users_answers_cover overlapping_users users_init) as Hcov
      by (vm_compute; tauto).
    exists c. split; [done|]. split; [done|]. split.
    + vm_compute in E. by injection E as <-.
    + by apply (Hu overlapping_users c E).
  - destruct (groups_run same_group_twice groups_init) as [c|] eqn:E;
      [|by vm_compute in E].
    assert (groups_answers_succeed same_group_twice) as Hok.
    { intros i e Hin. unfold same_group_twice in Hin.
      repeat (apply elem_of_cons in Hin as [?|Hin]; [done|]).
      by apply elem_of_nil in Hin. }
    exists c. split; [done|]. split; [done|]. split.
    + vm_compute in E. by injection E as <-.
    + by apply (Hg same_group_twice c E).
Defined.

End EntityCacheFacts.

(** * Properties of the event router *)

Section RouterFacts.
Import Router.



End RouterFacts.

(** * Properties of the post-connect bootstrap *)

Section BootstrapFacts.
Import Bootstrap.

Lemma bind_ok {S A B} (m : M S A) (f : A → M S B) (s s1 : S) e1 a :
  m s = (s1, e1, Ok a) →
  (m ≫= f) s = (let '(s2, e2, r) := f a s1 in (s2, e1 ++ e2, r)).
Proof. intros H. unfold mbind, M_bind. by rewrite H. Qed.

Lemma bind_raise {S A B} (m : M S A) (f : A → M S B) (s s1 : S) e1 x :
  m s = (s1, e1, Raise x) → (m ≫= f) s = (s1, e1, Raise x).
Proof. intros H. unfold mbind, M_bind. by rewrite H. Qed.

(** A guarded step returns, whatever the step does. *)
Lemma try_except_logs {S} (m : M S unit) (e : Effect) (s : S) :
  ∃ s1 e1, try_except m (λ _, perform e) s = (s1, e1, Ok ()).
Proof.
  unfold try_except, perform. destruct (m s) as [[s1 e1] [[]|x]]; eauto.
Qed.

(** [get_self] calls the service at most twice and touches only [gcid]. *)
Lemma get_self_spec (w : World) (u : User) :
  name_future (get_self w u).1.1 = name_future u ∧
  mirrored (get_self w u).1.1 = mirrored u ∧
  ∀ e, e ∈ (get_self w u).1.2 →
       e = ProtoGetSelfUserStatus ∨ ∃ ids, e = ProtoGetMembers ids.
Proof.
  unfold get_self, mbind, M_bind, get_state, await, modify, raise, mret, M_ret.
  destruct (truthy (gcid u)); [|destruct (self_user_status w)];
    cbn [fst snd]; try destruct (self_members w) as [[|m ms]|];
    cbn [fst snd app name_future mirrored set_gcid]; (split; [done|split; [done|]]);
    intros eff He;
    repeat (apply elem_of_cons in He as [->|He]; [eauto|]);
    by apply elem_of_nil in He.
Qed.

Lemma call_ok {S} (raises : Effect → option string) (e : Effect) (s : S) :
  raises e = None → call raises e s = (s, [e], Ok ()).
Proof. intros H. unfold call, await. by rewrite H. Qed.

Lemma set_result_pending (result : string) (u : User) :
  name_future u = Pending →
  set_result result u = (set_name_future (Resolved result) u, [], Ok ()).
Proof.
  intros H. unfold set_result, mbind, M_bind, get_state, modify. by rewrite H.
Qed.

(** C4, as amended. When [get_self] raises, [on_connect_later] logs it
    and returns: nothing is raised, and neither [sync] is run nor
    "connected" reported. When [get_self] returns and none of the steps
    outside a [try] raises (the two status reports, the name future, which
    must be pending, and [save]), [on_connect_later] returns and its last
    effect is to report "connected", whether enabling the custom puppet and
    [sync] succeed or fail. *)
Theorem connected_unless_identity_fails cfg (w : World) (u : User) :
  (∀ x, (get_self w u).2 = Raise x →
     on_connect_later cfg w u =
       ((get_self w u).1.1,
        (get_self w u).1.2 ++ [LogException "Failed to get own info"], Ok ()) ∧
     (PushBridgeState CONNECTED None ∉ (on_connect_later cfg w u).1.2) ∧
     (ProtoPaginatedWorld ∉ (on_connect_later cfg w u).1.2)) ∧
  (∀ self_info, (get_self w u).2 = Ok self_info →
     raises w (PushBridgeState BACKFILLING None) = None →
     name_future u = Pending →
     raises w Save = None →
     raises w (PushBridgeState CONNECTED None) = None →
     (on_connect_later cfg w u).2 = Ok () ∧
     last (on_connect_later cfg w u).1.2 = Some (PushBridgeState CONNECTED None)).
Proof.
  pose proof (get_self_spec w u) as (Hfut & _ & Heff).
  destruct (get_self w u) as [[u1 e1] r] eqn:E. cbn [fst snd] in *. split.
  - intros x ->.
    assert (on_connect_later cfg w u =
      (u1, e1 ++ [LogException "Failed to get own info"], Ok ())) as Heq.
    { unfold on_connect_later.
      rewrite (bind_ok _ _ u u1 e1 (Raise x)) by (unfold catch; by rewrite E).
      reflexivity. }
    split; [done|]. rewrite Heq. cbn [fst snd].
    split; intros Hin; apply elem_of_app in Hin as [Hin|Hin].
    + by destruct (Heff _ Hin) as [?|[? ?]].
    + by apply list_elem_of_singleton in Hin.
    + by destruct (Heff _ Hin) as [?|[? ?]].
    + by apply list_elem_of_singleton in Hin.
  - intros self_info -> Hback Hpending Hsave Hconn.
    unfold on_connect_later.
    rewrite (bind_ok _ _ u u1 e1 (Ok self_info)) by (unfold catch; by rewrite E).
    unfold after_get_self.
    set (own_name := if String.eqb (googlechat.name self_info) ""
                     then googlechat.first_name self_info
                     else googlechat.name self_info).
    erewrite bind_ok by (by apply call_ok).
    erewrite bind_ok by reflexivity.
    erewrite bind_ok by reflexivity.
    erewrite bind_ok by (apply set_result_pending; cbn; congruence).
    erewrite bind_ok by reflexivity.
    erewrite bind_ok by reflexivity.
    erewrite bind_ok by (by apply call_ok).
    match goal with
    | |- context [try_except (enable_custom_puppet w) ?h ≫= _] =>
        destruct (try_except_logs (enable_custom_puppet w)
          (LogException "Failed to automatically enable custom puppet")
          (set_name_future (Resolved own_name) (set_name (Some own_name) u1)))
          as (u2 & e2 & Hp)
    end.
    erewrite bind_ok by exact Hp.
    destruct (try_except_logs (sync cfg w)
      (LogException "Failed to sync conversations and users") u2)
      as (u3 & e3 & Hs).
    erewrite bind_ok by exact Hs.
    rewrite call_ok by done. cbn [fst snd]. split; [done|].
    rewrite !app_assoc. apply last_snoc.
Qed.

(** C4, counterexample: when the identity lookup fails, "connected" is
    not reported although [sync] would succeed; an exception of [save]
    leaves [on_connect_later]; and so does the [InvalidStateError] of a name
    future that an earlier connect has resolved. *)
Lemma bootstrap_not_always_connected :
  (get_self identity_refused fresh_user).2 = Raise (Failed "unauthorized") ∧
  (sync sync_one identity_refused fresh_user).2 = Ok () ∧
  (on_connect_later sync_one identity_refused fresh_user).1.2 =
    [ProtoGetSelfUserStatus; LogException "Failed to get own info"] ∧
  (on_connect_later sync_one save_fails fresh_user).2 =
    Raise (Failed "database is locked") ∧
  (on_connect_later sync_one all_well connected_before).2 =
    Raise InvalidStateError.
Proof. vm_compute. done. Qed.

(** A refused identity lookup; and a failing puppet and [sync]. *)
Lemma connected_witness :
  (on_connect_later sync_one identity_refused fresh_user).2 = Ok () ∧
  (on_connect_later sync_one puppet_and_sync_fail fresh_user).2 = Ok () ∧
  last (on_connect_later sync_one puppet_and_sync_fail fresh_user).1.2 =
    Some (PushBridgeState CONNECTED None).
Proof.
  destruct (connected_unless_identity_fails sync_one identity_refused fresh_user)
    as [H1 _].
  destruct (H1 (Failed "unauthorized") eq_refl) as (Heq & _).
  destruct (connected_unless_identity_fails sync_one puppet_and_sync_fail
    fresh_user) as [_ H2].
  destruct (H2 (googlechat.user me) eq_refl eq_refl eq_refl eq_refl eq_refl)
    as [Hr Hl].
  split; [by rewrite Heq|]. split; [exact Hr|exact Hl].
Defined.

(** ** [sync] *)

Lemma insert_item_perm (item : WorldItemLite) (items : list WorldItemLite) :
  insert_item item items ≡ₚ item :: items.
Proof.
  induction items as [|item' items IH]; simpl; [done|].
  destruct (sort_timestamp item <? sort_timestamp item'); [|done].
  rewrite IH. apply Permutation_swap.
Qed.

Lemma sort_items_perm (items : list WorldItemLite) : sort_items items ≡ₚ items.
Proof.
  induction items as [|item items IH]; simpl; [done|].
  by rewrite insert_item_perm, IH.
Qed.

Lemma insert_item_sorted (item : WorldItemLite) (items : list WorldItemLite) :
  Sorted not_older items → Sorted not_older (insert_item item items).
Proof.
  induction items as [|item' items IH]; intros Hs; simpl.
  { by repeat constructor. }
  destruct (sort_timestamp item <? sort_timestamp item') eqn:E.
  - apply Z.ltb_lt in E. apply Sorted_inv in Hs as [Hs Hhd].
    constructor; [by apply IH|].
    destruct items as [|item'' items]; simpl.
    + constructor. unfold not_older. lia.
    + destruct (sort_timestamp item <? sort_timestamp item'') eqn:E'.
      * constructor. by apply HdRel_inv in Hhd.
      * constructor. unfold not_older. lia.
  - apply Z.ltb_ge in E. constructor; [done|]. by constructor.
Qed.

Lemma sort_items_sorted (items : list WorldItemLite) :
  Sorted not_older (sort_items items).
Proof.
  induction items as [|item items IH]; simpl; [constructor|].
  by apply insert_item_sorted.
Qed.

Lemma created_app (l k : list Effect) : created (l ++ k) = created l ++ created k.
Proof. apply omap_app. Qed.

Lemma updated_app (l k : list Effect) : updated (l ++ k) = updated l ++ updated k.
Proof. apply omap_app. Qed.

(** One turn of the loop of [sync]. *)
Lemma sync_items_cons (max_sync : Z) (w : World) (index : nat)
    (item : WorldItemLite) (rest : list WorldItemLite) (u : User) :
  let c := group_id item in
  let looked := [PortalGetByGcid c; LogDebug ("Syncing " +:+ c)] in
  let continue (u1 : User) (e1 : list Effect) :=
    let '(u2, e2, r) := sync_items max_sync w (S index) rest u1 in
    (u2, (looked ++ e1) ++ e2, r) in
  sync_items max_sync w index (item :: rest) u =
    if bool_decide (c ∈ mirrored u) then
      match raises w (UpdateMatrixRoom c) with
      | Some msg => (u, looked ++ [UpdateMatrixRoom c], Raise (Failed msg))
      | None => continue u [UpdateMatrixRoom c]
      end
    else if Z.of_nat index <? max_sync then
      match raises w (CreateMatrixRoom c) with
      | Some msg => (u, looked ++ [CreateMatrixRoom c], Raise (Failed msg))
      | None => continue (add_mirrored c u) [CreateMatrixRoom c]
      end
    else continue u [].
Proof.
  intros c looked continue. subst continue. cbn [sync_items]. fold c.
  unfold update_matrix_room, create_matrix_room.
  unfold mbind, M_bind, perform, get_state, call, await, modify, mret, M_ret.
  destruct (bool_decide (c ∈ mirrored u)).
  - destruct (raises w (UpdateMatrixRoom c)); [done|].
    by destruct (sync_items max_sync w (S index) rest u) as [[u2 e2] r].
  - destruct (Z.of_nat index <? max_sync).
    + destruct (raises w (CreateMatrixRoom c)); [done|].
      by destruct (sync_items max_sync w (S index) rest (add_mirrored c u))
        as [[u2 e2] r].
    + by destruct (sync_items max_sync w (S index) rest u) as [[u2 e2] r].
Qed.

Lemma window_closed (max_sync : Z) (index : nat) :
  max_sync ≤ Z.of_nat index → window max_sync index = 0%nat.
Proof. unfold window. lia. Qed.

Lemma window_open (max_sync : Z) (index : nat) :
  Z.of_nat index < max_sync →
  window max_sync index = S (window max_sync (S index)).
Proof. unfold window. lia. Qed.

Lemma elem_of_add_mirrored (c c' : string) (u : User) :
  c' ∈ mirrored (add_mirrored c u) ↔ c' = c ∨ c' ∈ mirrored u.
Proof. unfold add_mirrored. cbn [mirrored]. by rewrite elem_of_union, elem_of_singleton. Qed.

(** What the loop of [sync] creates and updates when no call fails. *)
Lemma sync_items_ok (max_sync : Z) (w : World) (items : list WorldItemLite) :
  ∀ (index : nat) (u u' : User) (tr : list Effect),
    sync_items max_sync w index items u = (u', tr, Ok ()) →
    (∀ c, c ∈ created tr ↔
          (c ∉ mirrored u) ∧
          c ∈ map group_id (take (window max_sync index) items)) ∧
    NoDup (created tr) ∧
    (∀ c, c ∈ mirrored u → c ∈ map group_id items → c ∈ updated tr).
Proof.
  induction items as [|item rest IH]; intros index u u' tr H.
  { injection H as <- <-. rewrite take_nil. simpl. split; [|split].
    - intros c. rewrite elem_of_nil. tauto.
    - apply NoDup_nil_2.
    - intros c _ Hc. by apply elem_of_nil in Hc. }
  rewrite sync_items_cons in H. cbv zeta in H.
  destruct (bool_decide (group_id item ∈ mirrored u)) eqn:Hm.
  - (* the conversation has a mirror: it is updated *)
    apply bool_decide_eq_true in Hm.
    destruct (raises w (UpdateMatrixRoom (group_id item))); [done|].
    destruct (sync_items max_sync w (S index) rest u) as [[u2 e2] r] eqn:E.
    injection H as <- <- ->. destruct (IH _ _ _ _ E) as (Hc & Hnd & Hu).
    rewrite ?created_app, ?updated_app. simpl. split; [|split].
    + intros c. rewrite Hc. destruct (Z_lt_le_dec (Z.of_nat index) max_sync).
      * rewrite (window_open max_sync index) by done. simpl.
        rewrite elem_of_cons. split; [tauto|]. intros [Hn [->|?]]; tauto.
      * rewrite (window_closed max_sync index), (window_closed max_sync (S index))
          by lia. by rewrite !take_0.
    + done.
    + intros c Hcm Hin. apply elem_of_cons in Hin as [->|Hin]; [by left|].
      right. by apply Hu.
  - apply bool_decide_eq_false in Hm.
    destruct (Z.of_nat index <? max_sync) eqn:Hlt.
    + (* no mirror, among the first [max_sync]: it is created *)
      apply Z.ltb_lt in Hlt.
      destruct (raises w (CreateMatrixRoom (group_id item))); [done|].
      destruct (sync_items max_sync w (S index) rest
        (add_mirrored (group_id item) u)) as [[u2 e2] r] eqn:E.
      injection H as <- <- ->. destruct (IH _ _ _ _ E) as (Hc & Hnd & Hu).
      rewrite ?created_app, ?updated_app. simpl.
      rewrite (window_open max_sync index) by done. simpl. split; [|split].
      * intros c. rewrite !elem_of_cons, Hc, elem_of_add_mirrored.
        destruct (decide (c = group_id item)) as [->|Hne]; tauto.
      * apply NoDup_cons. split; [|done]. rewrite Hc, elem_of_add_mirrored. tauto.
      * intros c Hcm Hin. apply elem_of_cons in Hin as [->|Hin]; [done|].
        apply Hu; [|done]. apply elem_of_add_mirrored. by right.
    + (* no mirror, past the first [max_sync]: it is left alone *)
      apply Z.ltb_ge in Hlt.
      destruct (sync_items max_sync w (S index) rest u) as [[u2 e2] r] eqn:E.
      injection H as <- <- ->. destruct (IH _ _ _ _ E) as (Hc & Hnd & Hu).
      rewrite ?created_app, ?updated_app. simpl. split; [|split].
      * intros c. rewrite Hc.
        rewrite (window_closed max_sync index), (window_closed max_sync (S index))
          by lia. by rewrite !take_0.
      * done.
      * intros c Hcm Hin. apply elem_of_cons in Hin as [->|Hin]; [done|].
        by apply Hu.
Qed.

Lemma filter_ext_elem {A} (P Q : A → Prop) `{∀ x, Decision (P x)}
    `{∀ x, Decision (Q x)} (l : list A) :
  (∀ x, x ∈ l → (P x ↔ Q x)) → filter P l = filter Q l.
Proof.
  induction l as [|x l IH]; intros Hext; [done|].
  rewrite !filter_cons.
  destruct (decide (P x)) as [HP|HP], (decide (Q x)) as [HQ|HQ].
  - f_equal. apply IH. intros y Hy. apply Hext. by right.
  - destruct HQ. apply Hext; [by left|done].
  - destruct HP. apply Hext; [by left|done].
  - apply IH. intros y Hy. apply Hext. by right.
Qed.

(** The same, in order, when no conversation is listed twice. *)
Lemma sync_items_distinct (max_sync : Z) (w : World) (items : list WorldItemLite) :
  ∀ (index : nat) (u u' : User) (tr : list Effect),
    NoDup (map group_id items) →
    sync_items max_sync w index items u = (u', tr, Ok ()) →
    created tr =
      filter (λ c, c ∉ mirrored u)
        (map group_id (take (window max_sync index) items)) ∧
    updated tr = filter (λ c, c ∈ mirrored u) (map group_id items).
Proof.
  induction items as [|item rest IH]; intros index u u' tr Hnd H.
  { injection H as <- <-. by rewrite take_nil. }
  rewrite sync_items_cons in H. cbv zeta in H.
  cbn [map] in Hnd. apply NoDup_cons in Hnd as [Hfresh Hnd].
  destruct (bool_decide (group_id item ∈ mirrored u)) eqn:Hm.
  - apply bool_decide_eq_true in Hm.
    destruct (raises w (UpdateMatrixRoom (group_id item))); [done|].
    destruct (sync_items max_sync w (S index) rest u) as [[u2 e2] r] eqn:E.
    injection H as <- <- ->. destruct (IH _ _ _ _ Hnd E) as [Hc Hu].
    simpl. rewrite Hc, Hu. split.
    + destruct (Z_lt_le_dec (Z.of_nat index) max_sync).
      * rewrite (window_open max_sync index) by done. simpl.
        rewrite filter_cons. by destruct (decide (group_id item ∉ mirrored u)).
      * rewrite (window_closed max_sync index), (window_closed max_sync (S index))
          by lia. by rewrite !take_0.
    + rewrite (filter_cons (λ c, c ∈ mirrored u)).
      by destruct (decide (group_id item ∈ mirrored u)).
  - apply bool_decide_eq_false in Hm.
    destruct (Z.of_nat index <? max_sync) eqn:Hlt.
    + apply Z.ltb_lt in Hlt.
      destruct (raises w (CreateMatrixRoom (group_id item))); [done|].
      destruct (sync_items max_sync w (S index) rest
        (add_mirrored (group_id item) u)) as [[u2 e2] r] eqn:E.
      injection H as <- <- ->. destruct (IH _ _ _ _ Hnd E) as [Hc Hu].
      simpl. rewrite Hc, Hu. rewrite (window_open max_sync index) by done.
      simpl. split.
      * rewrite (filter_cons (λ c, c ∉ mirrored u)).
        destruct (decide (group_id item ∉ mirrored u)); [|done]. f_equal.
        apply filter_ext_elem. intros c Hin. rewrite elem_of_union, elem_of_singleton.
        assert (c ≠ group_id item); [|tauto]. intros ->. apply Hfresh.
        apply list_elem_of_fmap in Hin as (it & -> & Hit).
        apply list_elem_of_fmap. exists it. split; [done|].
        by eapply subseteq_take.
      * rewrite (filter_cons (λ c, c ∈ mirrored u)).
        destruct (decide (group_id item ∈ mirrored u)); [done|].
        apply filter_ext_elem. intros c Hin. rewrite elem_of_union, elem_of_singleton.
        assert (c ≠ group_id item); [|tauto]. by intros ->.
    + apply Z.ltb_ge in Hlt.
      destruct (sync_items max_sync w (S index) rest u) as [[u2 e2] r] eqn:E.
      injection H as <- <- ->. destruct (IH _ _ _ _ Hnd E) as [Hc Hu].
      simpl. rewrite Hc, Hu. split.
      * rewrite (window_closed max_sync index), (window_closed max_sync (S index))
          by lia. by rewrite !take_0.
      * rewrite (filter_cons (λ c, c ∈ mirrored u)).
        by destruct (decide (group_id item ∈ mirrored u)).
Qed.

(** A [sync] that returns has run the loop to its end. *)
Lemma sync_ok cfg (w : World) (u : User) (items : list WorldItemLite) :
  paginated_world w = Answer items →
  (sync cfg w u).2 = Ok () →
  ∃ u' tr,
    sync_items (initial_chat_sync cfg) w 0 (sort_items items) u = (u', tr, Ok ()) ∧
    created (sync cfg w u).1.2 = created tr ∧
    updated (sync cfg w u).1.2 = updated tr.
Proof.
  intros Hw. unfold sync, call.
  unfold mbind, M_bind, perform, await. rewrite Hw.
  destruct (sync_items (initial_chat_sync cfg) w 0 (sort_items items) u)
    as [[u' tr] [[]|x]]; cbn [fst snd]; [|done].
  intros _. exists u', tr. split; [done|].
  destruct (raises w UpdateDirectChats); cbn [fst snd];
    rewrite !created_app, !updated_app; simpl; by rewrite !app_nil_r.
Qed.

(** C2, as amended. When no call fails, [sync] goes through the
    conversations in descending order of last activity and creates a mirror
    for exactly those without one among the first N of that order, each
    once; conversations that had a mirror count towards N, are updated and
    are not created again. This holds for every N and every list; when no
    conversation is listed twice, the mirrors are created, and the
    conversations updated, in that order. *)
Theorem sync_mirrors_unmirrored_of_first_n cfg (w : World) (u : User)
    (items : list WorldItemLite) :
  paginated_world w = Answer items →
  (sync cfg w u).2 = Ok () →
  let sorted := sort_items items in
  let tr := (sync cfg w u).1.2 in
  let n := initial_chat_sync cfg in
  sorted ≡ₚ items ∧ Sorted not_older sorted ∧
  (∀ c, c ∈ created tr ↔
        (c ∉ mirrored u) ∧ c ∈ map group_id (take (Z.to_nat n) sorted)) ∧
  NoDup (created tr) ∧
  (∀ c, c ∈ mirrored u → c ∈ map group_id items →
        c ∈ updated tr ∧ c ∉ created tr) ∧
  (NoDup (map group_id items) →
   created tr = unmirrored_of_first n (mirrored u) sorted ∧
   updated tr = filter (λ c, c ∈ mirrored u) (map group_id sorted)).
Proof.
  intros Hw Hok. cbv zeta.
  destruct (sync_ok cfg w u items Hw Hok) as (u' & tr' & Hrun & Hc & Hu).
  rewrite Hc, Hu.
  destruct (sync_items_ok _ _ _ _ _ _ _ Hrun) as (Hcreated & Hnd & Hupd).
  assert (window (initial_chat_sync cfg) 0 = Z.to_nat (initial_chat_sync cfg))
    as Hwin by (unfold window; f_equal; lia).
  rewrite Hwin in Hcreated.
  split; [apply sort_items_perm|]. split; [apply sort_items_sorted|].
  split; [done|]. split; [done|]. split.
  - intros c Hc' Hin. split.
    + apply Hupd; [done|]. by rewrite sort_items_perm.
    + rewrite Hcreated. tauto.
  - intros Hdistinct.
    assert (NoDup (map group_id (sort_items items))) as Hds
      by (by rewrite sort_items_perm).
    destruct (sync_items_distinct _ _ _ _ _ _ _ Hds Hrun) as [-> ->].
    by rewrite Hwin.
Qed.

(** C2, counterexample: with N = 1 and the most recent conversation
    already mirrored, [sync] creates no mirror, while the first
    conversation without a mirror is "C". *)
Lemma sync_counts_mirrored_conversations :
  (sync sync_one all_well fresh_user).2 = Ok () ∧
  map group_id (sort_items three_chats) = ["A"; "C"; "B"] ∧
  created (sync sync_one all_well fresh_user).1.2 = [] ∧
  first_unmirrored 1 (mirrored fresh_user) (sort_items three_chats) = ["C"] ∧
  created (sync sync_one all_well fresh_user).1.2 ≠
    first_unmirrored 1 (mirrored fresh_user) (sort_items three_chats).
Proof. vm_compute. repeat split; done. Qed.

(** Three conversations, the most recent one mirrored, and N = 2. *)
Lemma sync_mirrors_witness :
  (sync sync_two all_well fresh_user).2 = Ok () ∧
  created (sync sync_two all_well fresh_user).1.2 = ["C"] ∧
  updated (sync sync_two all_well fresh_user).1.2 = ["A"].
Proof.
  assert ((sync sync_two all_well fresh_user).2 = Ok ()) as Hok
    by (vm_compute; reflexivity).
  assert (NoDup (map group_id three_chats)) as Hnd.
  { apply NoDup_ListNoDup. repeat constructor; simpl; intuition discriminate. }
  destruct (sync_mirrors_unmirrored_of_first_n sync_two all_well fresh_user
    three_chats eq_refl Hok) as (_ & _ & _ & _ & _ & H).
  destruct (H Hnd) as [Hc Hu]. split; [exact Hok|].
  rewrite Hc, Hu. split; vm_compute; reflexivity.
Defined.

End BootstrapFacts.

(** * Further properties of the session supervisor *)

Section SupervisorMore.
Import Supervisor Observations.
Local Open Scope Z_scope.

Lemma after_disconnect_severity (b : Backoff) (t : Turn) :
  0 ≤ backoff b → state_event b = severity (backoff b) →
  state_event (after_disconnect b t) = severity (backoff (after_disconnect b t)).
Proof.
  intros Hpos Hb. unfold after_disconnect, next_backoff, severity in *.
  destruct (Qlt_le_dec _ _); cbn [state_event backoff set_last_disconnection];
    [done|].
  destruct (60 <? int_times_1_5 (backoff b)) eqn:E; [done|].
  rewrite Hb. apply Z.ltb_ge in E.
  pose proof (int_times_1_5_grows (backoff b) Hpos).
  destruct (60 <? backoff b) eqn:E'; [apply Z.ltb_lt in E'; lia|done].
Qed.

Lemma loop_severity cfg (turns : list Turn) (u : Session) (b : Backoff) :
  4 ≤ backoff b → state_event b = severity (backoff b) →
  classifications (trace (loop cfg turns u b)) =
  map severity (delays (trace (loop cfg turns u b))).
Proof.
  revert u b. induction turns as [|t turns IH]; intros u b Hpos Hb; [done|].
  cbn [loop]. unfold and_then.
  destruct (returns_intentionally t u) eqn:E.
  - destruct (iteration_returns cfg t u b E) as (-> & _ & -> & ->). done.
  - destruct (iteration_retries cfg t u b E) as (-> & Hv & Hd & Hc).
    cbn [trace]. rewrite delays_app, classifications_app, map_app, Hd, Hc, Hv.
    rewrite <- IH.
    + by rewrite after_disconnect_severity by (done || lia).
    + by apply after_disconnect_ge_4.
    + apply after_disconnect_severity; [lia|done].
Qed.

(** In every run of [start], the classification pushed with a notice is
    unknown-error when the delay slept after it exceeds 60, and
    transient-disconnect otherwise. *)
Theorem notices_classified_by_delay cfg (turns : list Turn) (u : Session) :
  classifications (trace (start cfg turns u)) =
  map severity (delays (trace (start cfg turns u))).
Proof.
  destruct (start_loop cfg turns u) as (_ & _ & _ & ->).
  change (classifications (SetIntentionalDisconnect false :: ?tr))
    with (classifications tr).
  change (delays (SetIntentionalDisconnect false :: ?tr)) with (delays tr).
  by apply loop_severity.
Qed.














End SupervisorMore.


(** * Further properties of the event router *)

Section RouterMore.
Import Router Observations.





End RouterMore.

(** * Further properties of the entity cache *)

Section EntityCacheMore.
Import googlechat EntityCache Observations.

Lemma req_ids_covered (members : list Member) (users : gmap string User)
    (ids ids' : list string) :
  covers members (req_ids users ids) = true →
  (∀ id, id ∈ ids' → id ∈ ids) →
  req_ids (cache_members users members) ids' = [].
Proof.
  intros Hcov Hsub. apply req_ids_nil. intros id Hid.
  apply cache_members_is_Some. destruct (users !! id) eqn:E; [eauto|right].
  apply (covers_elem_of members (req_ids users ids)); [done|].
  apply elem_of_req_ids. auto.
Qed.

(** [get_users] memoizes: after a call whose answer had a member for
    every id asked, the call returned one profile per id, and any further
    call for some of these ids fetches nothing, leaves the cache alone and,
    for the same ids, returns the same profiles. *)
Theorem get_users_memoizes (members : list Member) (users : gmap string User)
    (ids : list string) :
  covers members (req_ids users ids) = true →
  let first := get_users (Answer members) users ids in
  (∃ us, first.2 = Ok us ∧ length us = length ids) ∧
  (∀ resp ids', (∀ id, id ∈ ids' → id ∈ ids) →
     (get_users resp first.1.1 ids').1 = (first.1.1, [])) ∧
  (∀ resp, get_users resp first.1.1 ids = (first.1.1, [], first.2)).
Proof.
  intros Hcov first. subst first.
  destruct (req_ids users ids) as [|r req] eqn:E.
  - rewrite (get_users_cached _ users ids E). cbn [fst snd].
    split; [|split].
    + destruct (lookup_all_ok users ids) as (us & Hus & Hlen & _).
      { by apply req_ids_nil. }
      eauto.
    + intros resp ids' Hsub.
      rewrite get_users_cached; [done|]. apply req_ids_nil. intros id Hid.
      apply (proj1 (req_ids_nil users ids) E). auto.
    + intros resp. by rewrite get_users_cached.
  - assert (req_ids users ids ≠ []) as Hne by (by rewrite E).
    rewrite <- E in Hcov. rewrite (get_users_fetched members users ids Hne).
    cbn [fst snd]. split; [|split].
    + destruct (lookup_all_ok (cache_members users members) ids)
        as (us & Hus & Hlen & _); [|eauto].
      apply req_ids_nil. by eapply req_ids_covered.
    + intros resp ids' Hsub. rewrite get_users_cached; [done|].
      by eapply req_ids_covered.
    + intros resp. rewrite get_users_cached; [done|].
      by eapply req_ids_covered.
Qed.

(** Alice is cached, Bob is fetched; then both are served from the cache. *)
Lemma get_users_memoizes_witness :
  covers [bob] (req_ids {["a" := user alice]} ["a"; "b"]) = true ∧
  ∀ resp,
    (get_users resp
       (get_users (Answer [bob]) {["a" := user alice]} ["a"; "b"]).1.1
       ["b"; "a"]).1.2 = [].
Proof.
  assert (covers [bob] (req_ids {["a" := user alice]} ["a"; "b"]) = true)
    as Hcov by (vm_compute; reflexivity).
  split; [exact Hcov|]. intros resp.
  destruct (get_users_memoizes [bob] {["a" := user alice]} ["a"; "b"] Hcov)
    as (_ & H & _).
  rewrite (H resp ["b"; "a"]); [done|].
  intros id Hid. apply elem_of_cons in Hid as [->|Hid]; [by right; left|].
  apply list_elem_of_singleton in Hid as ->. by left.
Defined.

(** [get_group] memoizes: once a call has returned, with a cached or a
    fetched descriptor, any further call for the same conversation returns
    the same descriptor without a fetch and leaves the cache alone. *)
Theorem get_group_memoizes (r : GetGroupResponse)
    (groups : gmap string GetGroupResponse) (conv_id : string) :
  let first := get_group (Answer r) groups conv_id in
  first.1.1 !! conv_id = Some (default r (groups !! conv_id)) ∧
  first.2 = Ok (default r (groups !! conv_id)) ∧
  (∀ other, other ≠ conv_id → first.1.1 !! other = groups !! other) ∧
  ∀ resp, get_group resp first.1.1 conv_id = (first.1.1, [], first.2).
Proof.
  unfold get_group. destruct (groups !! conv_id) as [g|] eqn:E; cbn [fst snd default].
  - split; [done|]. split; [done|]. split; [done|]. intros resp. by rewrite E.
  - rewrite lookup_insert_eq. split; [done|]. split; [done|].
    split; [intros other Hne; by rewrite lookup_insert_ne|]. done.
Qed.

(** A group is fetched; the next call does not ask, although the service
    is down. *)
Lemma get_group_memoizes_witness :
  (get_group (Failure "timeout")
     (get_group (Answer {| group := "space:1" |}) ∅ "space:1").1.1 "space:1").2 =
    Ok {| group := "space:1" |}.
Proof.
  destruct (get_group_memoizes {| group := "space:1" |} ∅ "space:1")
    as (_ & Hfirst & _ & Hnext).
  rewrite (Hnext (Failure "timeout")). cbn [snd]. by rewrite Hfirst.
Defined.



Lemma users_step_lock_held (s : UsersStep) (c c' : UsersCache) :
  users_lock_inv c → (users_lock c = true →
    ∃ i ids req, users_tasks c !! i = Some (UFetching ids req)) →
  users_step s c = Some c' →
  users_lock c' = true →
  ∃ i ids req, users_tasks c' !! i = Some (UFetching ids req).
Proof.
  intros Hinv Hheld Hstep. destruct s as [ids|i|i resp]; simpl in Hstep.
  - injection Hstep as <-. cbn [users_lock users_tasks]. intros Hl.
    destruct (Hheld Hl) as (j & ids' & req & Hj).
    exists j, ids', req. by apply lookup_app_l_Some.
  - destruct (users_tasks c !! i) as [[ids| |]|] eqn:Hi; try done.
    destruct (users_lock c) eqn:Hl; [done|].
    destruct (req_ids (users c) ids) as [|r req] eqn:Hreq;
      injection Hstep as <-; cbn [users_lock users_tasks]; [done|].
    intros _. exists i, ids, (r :: req).
    apply list_lookup_insert_eq. by eapply lookup_lt_Some.
  - destruct (users_tasks c !! i) as [[|ids req|]|] eqn:Hi; try done.
    by destruct resp; injection Hstep as <-.
Qed.

Lemma groups_step_lock_held (s : GroupsStep) (c c' : GroupsCache) :
  (groups_lock c = true → ∃ i conv, groups_tasks c !! i = Some (GFetching conv)) →
  groups_step s c = Some c' →
  groups_lock c' = true →
  ∃ i conv, groups_tasks c' !! i = Some (GFetching conv).
Proof.
  intros Hheld Hstep. destruct s as [conv|i|i resp]; simpl in Hstep.
  - destruct (groups c !! conv); injection Hstep as <-;
      cbn [groups_lock groups_tasks]; intros Hl;
      destruct (Hheld Hl) as (j & conv' & Hj);
      exists j, conv'; by apply lookup_app_l_Some.
  - destruct (groups_tasks c !! i) as [[conv| |]|] eqn:Hi; try done.
    destruct (groups_lock c) eqn:Hl; [done|].
    destruct (groups c !! conv) as [g|] eqn:Hg;
      injection Hstep as <-; cbn [groups_lock groups_tasks]; [done|].
    intros _. exists i, conv.
    apply list_lookup_insert_eq. by eapply lookup_lt_Some.
  - destruct (groups_tasks c !! i) as [[|conv|]|] eqn:Hi; try done.
    by destruct resp; injection Hstep as <-.
Qed.

Lemma users_run_lock_held (steps : list UsersStep) (c c' : UsersCache) :
  users_lock_inv c → users_lock_held_by_fetch c →
  users_run steps c = Some c' → users_lock_held_by_fetch c'.
Proof.
  revert c. induction steps as [|s steps IH]; intros c Hinv Hheld; simpl.
  - by intros [= <-].
  - destruct (users_step s c) as [c1|] eqn:Hs; [|done].
    apply IH; [by eapply users_step_lock_inv|].
    pose proof (users_step_lock_inv s c c1 Hinv Hs) as [Hfree _].
    split.
    + eapply users_step_lock_held; [done| |done]. apply Hheld.
    + intros (j & ids & req & Hj). destruct (users_lock c1) eqn:E; [done|].
      by destruct (Hfree eq_refl j ids req).
Qed.

Lemma groups_run_lock_held (steps : list GroupsStep) (c c' : GroupsCache) :
  groups_lock_inv c → groups_lock_held_by_fetch c →
  groups_run steps c = Some c' → groups_lock_held_by_fetch c'.
Proof.
  revert c. induction steps as [|s steps IH]; intros c Hinv Hheld; simpl.
  - by intros [= <-].
  - destruct (groups_step s c) as [c1|] eqn:Hs; [|done].
    apply IH; [by eapply groups_step_lock_inv|].
    pose proof (groups_step_lock_inv s c c1 Hinv Hs) as [Hfree _].
    split.
    + eapply groups_step_lock_held; [|done]. apply Hheld.
    + intros (j & conv & Hj). destruct (groups_lock c1) eqn:E; [done|].
      by destruct (Hfree eq_refl j conv).
Qed.

(** In every state concurrent calls can reach, [users_lock] (and
    [groups_lock]) is taken exactly while one of the calls awaits the answer
    to its fetch: an answer, also a failure, frees the lock, and a waiting
    caller can go on. *)
Theorem lock_held_only_while_fetching :
  (∀ (steps : list UsersStep) (c : UsersCache),
     users_run steps users_init = Some c → users_lock_held_by_fetch c) ∧
  (∀ (steps : list GroupsStep) (c : GroupsCache),
     groups_run steps groups_init = Some c → groups_lock_held_by_fetch c) ∧
  (∃ c, users_run fetch_fails_then_retry users_init = Some c ∧
        users_tasks c = [UFinished (Raise (Failed "timeout")); UFetching ["a"] ["a"]]).
Proof.
  split; [|split].
  - intros steps c Hrun. destruct users_init_inv as [Hl _].
    eapply users_run_lock_held; [exact Hl| |exact Hrun].
    split; [done|]. intros (i & ids & req & H). by destruct i.
  - intros steps c Hrun. destruct groups_init_inv as [Hl _].
    eapply groups_run_lock_held; [exact Hl| |exact Hrun].
    split; [done|]. intros (i & conv & H). by destruct i.
  - eexists. split; [reflexivity|]. reflexivity.
Qed.

Lemma users_step_keeps (s : UsersStep) (c c' : UsersCache) (id : string) :
  users_step s c = Some c' →
  is_Some (users c !! id) → is_Some (users c' !! id).
Proof.
  intros Hstep Hid. destruct s as [ids|i|i resp]; simpl in Hstep.
  - by injection Hstep as <-.
  - destruct (users_tasks c !! i) as [[ids| |]|]; try done.
    destruct (users_lock c); [done|].
    by destruct (req_ids (users c) ids); injection Hstep as <-.
  - destruct (users_tasks c !! i) as [[|ids req|]|]; try done.
    destruct resp; injection Hstep as <-; [|done].
    by apply cache_members_mono.
Qed.

Lemma groups_step_uncached (s : GroupsStep) (c c' : GroupsCache) :
  groups_lock_inv c → groups_fetching_uncached c →
  groups_step s c = Some c' → groups_fetching_uncached c'.
Proof.
  intros [Hfree Hone] Hun Hstep j conv'. destruct s as [conv|i|i resp];
    simpl in Hstep.
  - destruct (groups c !! conv); injection Hstep as <-;
      cbn [groups groups_tasks]; intros Hj;
      apply lookup_snoc_Some in Hj as [Hj|?]; try done; by eapply Hun.
  - destruct (groups_tasks c !! i) as [[conv| |]|] eqn:Hi; try done.
    destruct (groups_lock c) eqn:Hl; [done|]. specialize (Hfree eq_refl).
    destruct (groups c !! conv) as [g|] eqn:Hg;
      injection Hstep as <-; cbn [groups groups_tasks]; intros Hj;
      apply list_lookup_insert_Some in Hj as [(_ & Heq & _)|[_ Hj]];
      try done; try (by destruct (Hfree j conv')).
    by injection Heq as <-.
  - destruct (groups_tasks c !! i) as [[|conv|]|] eqn:Hi; try done.
    destruct resp; injection Hstep as <-; cbn [groups groups_tasks]; intros Hj;
      apply list_lookup_insert_Some in Hj as [(_ & ? & _)|[Hne Hj]]; try done;
      destruct Hne; eapply Hone; eauto.
Qed.

Lemma groups_step_keeps (s : GroupsStep) (c c' : GroupsCache) (conv : string)
    (g : GetGroupResponse) :
  groups_fetching_uncached c →
  groups_step s c = Some c' →
  groups c !! conv = Some g → groups c' !! conv = Some g.
Proof.
  intros Hun Hstep Hg. destruct s as [conv0|i|i resp]; simpl in Hstep.
  - by destruct (groups c !! conv0); injection Hstep as <-.
  - destruct (groups_tasks c !! i) as [[conv0| |]|]; try done.
    destruct (groups_lock c); [done|].
    by destruct (groups c !! conv0); injection Hstep as <-.
  - destruct (groups_tasks c !! i) as [[|conv0|]|] eqn:Hi; try done.
    destruct resp; injection Hstep as <-; [|done]. cbn [groups].
    rewrite lookup_insert_ne; [done|]. intros ->.
    specialize (Hun i conv Hi). congruence.
Qed.

Lemma groups_run_keeps (steps : list GroupsStep) (c c' : GroupsCache)
    (conv : string) (g : GetGroupResponse) :
  groups_lock_inv c → groups_fetching_uncached c →
  groups_run steps c = Some c' →
  (groups_lock_inv c' ∧ groups_fetching_uncached c') ∧
  (groups c !! conv = Some g → groups c' !! conv = Some g).
Proof.
  revert c. induction steps as [|s steps IH]; intros c Hinv Hun; simpl.
  - by intros [= <-].
  - destruct (groups_step s c) as [c1|] eqn:Hs; [|done]. intros Hrun.
    destruct (IH c1) as [Hinv' Hkeep]; [by eapply groups_step_lock_inv|
      by eapply groups_step_uncached|done|].
    split; [done|]. intros Hg. apply Hkeep. by eapply groups_step_keeps.
Qed.

(** Within a cache lifetime entries stay: no schedule of calls of
    [get_users] removes a cached user, and no schedule of calls of
    [get_group] removes or replaces a cached group. *)
Theorem cache_entries_stay :
  (∀ (steps : list UsersStep) (c c' : UsersCache) (id : string),
     users_run steps c = Some c' →
     is_Some (users c !! id) → is_Some (users c' !! id)) ∧
  (∀ (before after : list GroupsStep) (c c' : GroupsCache) (conv : string)
     (g : GetGroupResponse),
     groups_run before groups_init = Some c →
     groups_run after c = Some c' →
     groups c !! conv = Some g → groups c' !! conv = Some g).
Proof.
  split.
  - intros steps. induction steps as [|s steps IH]; intros c c' id; simpl.
    + by intros [= <-].
    + destruct (users_step s c) as [c1|] eqn:Hs; [|done]. intros Hrun Hid.
      eapply IH; [done|]. by eapply users_step_keeps.
  - intros before after c c' conv g Hb Ha.
    destruct groups_init_inv as [Hl _].
    destruct (groups_run_keeps before groups_init c conv g Hl) as [[Hl' Hun'] _];
      [|done|].
    { intros i conv' H. by destruct i. }
    by destruct (groups_run_keeps after c c' conv g Hl' Hun' Ha) as [_ ?].
Qed.

(** A group is fetched; a later caller that races with nobody keeps it. *)
Lemma cache_entries_stay_witness :
  ∃ c c', groups_run same_group_twice groups_init = Some c ∧
          groups_run [GCall "space:2"; GAcquire 2;
                      GRespond 2 (Answer {| group := "Other" |})] c = Some c' ∧
          groups c' !! "space:1" = Some {| group := "Room" |}.
Proof.
  destruct (groups_run same_group_twice groups_init) as [c|] eqn:E;
    [|by vm_compute in E].
  destruct (groups_run [GCall "space:2"; GAcquire 2;
                        GRespond 2 (Answer {| group := "Other" |})] c)
    as [c'|] eqn:E'.
  - exists c, c'. split; [done|]. split; [done|].
    apply (proj2 cache_entries_stay same_group_twice _ c c' _ _ E E').
    vm_compute in E. injection E as <-. reflexivity.
  - exfalso. vm_compute in E. injection E as <-. by vm_compute in E'.
Defined.

(** After the failed fetch of the first caller, the second holds the lock. *)
Lemma lock_held_witness :
  ∃ c, users_run fetch_fails_then_retry users_init = Some c ∧
       users_lock c = true ∧
       ∃ i ids req, users_tasks c !! i = Some (UFetching ids req).
Proof.
  destruct (users_run fetch_fails_then_retry users_init) as [c|] eqn:E;
    [|by vm_compute in E].
  pose proof (proj1 lock_held_only_while_fetching fetch_fails_then_retry c E)
    as Hheld.
  assert (users_lock c = true) as Hl.
  { vm_compute in E. by injection E as <-. }
  exists c. split; [done|]. split; [done|]. by apply Hheld.
Defined.

End EntityCacheMore.


(** * Further properties of the post-connect bootstrap *)

Section BootstrapMore.
Import Bootstrap Observations.
Local Open Scope Z_scope.

Lemma insert_item_at_time (t : Z) (item : WorldItemLite)
    (items : list WorldItemLite) :
  at_time t (insert_item item items) = at_time t (item :: items).
Proof.
  unfold at_time. induction items as [|item' items IH]; [done|]. simpl.
  destruct (sort_timestamp item <? sort_timestamp item') eqn:E; [|done].
  apply Z.ltb_lt in E. rewrite filter_cons, IH, !filter_cons.
  destruct (decide (sort_timestamp item' = t)), (decide (sort_timestamp item = t));
    try done. lia.
Qed.

(** [items.sort(..., reverse=True)] as [sync] uses it: the result holds
    the same items, in descending order of timestamp, and items with equal
    timestamps keep the order they had. *)
Theorem sort_items_stable (items : list WorldItemLite) :
  sort_items items ≡ₚ items ∧
  Sorted not_older (sort_items items) ∧
  ∀ t, at_time t (sort_items items) = at_time t items.
Proof.
  split; [apply sort_items_perm|]. split; [apply sort_items_sorted|].
  intros t. induction items as [|item items IH]; [done|].
  cbn [sort_items foldr]. fold (sort_items items).
  rewrite insert_item_at_time. unfold at_time in *.
  by rewrite !filter_cons, IH.
Qed.

(** An effect is none of those listed. *)
Ltac not_listed :=
  let Hin := fresh "Hin" in
  intros Hin;
  repeat (apply elem_of_cons in Hin as [?|Hin]; [done|]);
  by apply elem_of_nil in Hin.

Lemma pushed_app (l k : list Effect) : pushed (l ++ k) = pushed l ++ pushed k.
Proof. apply omap_app. Qed.

(** The loop of [sync], however it ends. *)
Lemma sync_items_any (max_sync : Z) (w : World) (items : list WorldItemLite) :
  ∀ (index : nat) (u u' : User) (tr : list Effect) (r : Result unit),
    sync_items max_sync w index items u = (u', tr, r) →
    pushed tr = [] ∧
    (length (created tr) ≤ window max_sync index)%nat ∧
    NoDup (created tr) ∧
    (∀ c, c ∈ created tr →
          (c ∉ mirrored u) ∧
          c ∈ map group_id (take (window max_sync index) items)) ∧
    (∀ c, c ∈ updated tr →
          (c ∈ mirrored u ∨ c ∈ created tr) ∧ c ∈ map group_id items) ∧
    (∀ c, c ∈ mirrored u' → c ∈ mirrored u ∨ c ∈ created tr) ∧
    (∀ c, c ∈ mirrored u → c ∈ mirrored u') ∧
    (r = Ok () → ∀ c, c ∈ created tr → c ∈ mirrored u') ∧
    same_account u u' ∧
    (UpdateDirectChats ∉ tr) ∧
    (∀ x, r = Raise x →
          ∃ e msg, x = Failed msg ∧ last tr = Some e ∧ raises w e = Some msg).
Proof.
  induction items as [|item rest IH]; intros index u u' tr r H.
  { injection H as <- <- <-. rewrite take_nil. simpl.
    split_and!; try done; try (intros c Hc; by apply elem_of_nil in Hc);
      try apply NoDup_nil_2; try apply not_elem_of_nil; auto; try lia.
    intros _ c Hc. by apply elem_of_nil in Hc. }
  rewrite sync_items_cons in H. cbv zeta in H.
  destruct (bool_decide (group_id item ∈ mirrored u)) eqn:Hm;
    [apply bool_decide_eq_true in Hm
    |apply bool_decide_eq_false in Hm;
     destruct (Z.of_nat index <? max_sync) eqn:Hlt;
     [apply Z.ltb_lt in Hlt|apply Z.ltb_ge in Hlt]].
  1: destruct (raises w (UpdateMatrixRoom (group_id item))) as [msg|] eqn:Hr.
  3: destruct (raises w (CreateMatrixRoom (group_id item))) as [msg|] eqn:Hr.
  (* the update raises *)
  { injection H as <- <- <-. simpl. split_and!.
    - done.
    - lia.
    - apply NoDup_nil_2.
    - intros c Hc. by apply elem_of_nil in Hc.
    - intros c Hc. apply list_elem_of_singleton in Hc as ->. split; [by left|by left].
    - auto.
    - done.
    - done.
    - done.
    - rewrite !not_elem_of_cons. split_and!; try done. apply not_elem_of_nil.
    - intros x [= <-]. by exists (UpdateMatrixRoom (group_id item)), msg. }
  (* the conversation is updated *)
  { destruct (sync_items max_sync w (S index) rest u) as [[u2 e2] r2] eqn:E.
    injection H as <- <- <-.
  destruct (IH _ _ _ _ _ E)
      as (Hp & Hlen & Hnd & Hcr & Hup & Hm1 & Hm2 & Hok & Hsame & Hdc & Hx).
    rewrite ?pushed_app, ?created_app, ?updated_app. simpl.
    split_and!.
    - done.
    - unfold window in *. lia.
    - done.
    - intros c Hc. destruct (Hcr c Hc) as [Hn Hin]. split; [done|].
      destruct (Z_lt_le_dec (Z.of_nat index) max_sync).
      + rewrite (window_open max_sync index) by done. simpl. by right.
      + rewrite (window_closed max_sync (S index)), take_0 in Hin by lia.
        by apply elem_of_nil in Hin.
    - intros c Hc. apply elem_of_cons in Hc as [->|Hc].
      + split; [by left|by left].
      + destruct (Hup c Hc). split; [done|by right].
    - done.
    - done.
    - done.
    - done.
    - rewrite !not_elem_of_cons. by split_and!.
    - intros x ->. destruct (Hx x eq_refl) as (e & msg & -> & Hl & Hre).
      exists e, msg. split; [done|]. split; [|done].
      change (last ([PortalGetByGcid (group_id item); LogDebug ("Syncing " +:+ group_id item); UpdateMatrixRoom (group_id item)] ++ e2) = Some e).
      by rewrite last_app, Hl. }
  (* the creation raises *)
  { injection H as <- <- <-. simpl.
    rewrite (window_open max_sync index) by done. simpl. split_and!.
    - done.
    - lia.
    - apply NoDup_singleton.
    - intros c Hc. apply list_elem_of_singleton in Hc as ->. split; [done|by left].
    - intros c Hc. by apply elem_of_nil in Hc.
    - auto.
    - done.
    - done.
    - done.
    - rewrite !not_elem_of_cons. split_and!; try done. apply not_elem_of_nil.
    - intros x [= <-]. by exists (CreateMatrixRoom (group_id item)), msg. }
  (* the conversation is given a mirror *)
  { destruct (sync_items max_sync w (S index) rest
      (add_mirrored (group_id item) u)) as [[u2 e2] r2] eqn:E.
    injection H as <- <- <-.
  destruct (IH _ _ _ _ _ E)
      as (Hp & Hlen & Hnd & Hcr & Hup & Hm1 & Hm2 & Hok & Hsame & Hdc & Hx).
    rewrite ?pushed_app, ?created_app, ?updated_app. simpl.
    rewrite (window_open max_sync index) by done. simpl. split_and!.
    - done.
    - lia.
    - apply NoDup_cons. split; [|done]. intros Hc.
      destruct (Hcr _ Hc) as [Hn _]. apply Hn, elem_of_add_mirrored. by left.
    - intros c Hc. apply elem_of_cons in Hc as [->|Hc].
      + split; [done|by left].
      + destruct (Hcr c Hc) as [Hn Hin]. split; [|by right].
        intros Hcm. apply Hn, elem_of_add_mirrored. by right.
    - intros c Hc. destruct (Hup c Hc) as [Hor Hin]. split; [|by right].
      destruct Hor as [Hor|Hor].
      + apply elem_of_add_mirrored in Hor as [->|?]; [right; by left|by left].
      + right. by right.
    - intros c Hc. destruct (Hm1 c Hc) as [Hor|Hor].
      + apply elem_of_add_mirrored in Hor as [->|?]; [right; by left|by left].
      + right. by right.
    - intros c Hc. apply Hm2, elem_of_add_mirrored. by right.
    - intros -> c Hc. apply elem_of_cons in Hc as [->|Hc].
      + apply Hm2, elem_of_add_mirrored. by left.
      + by apply Hok.
    - done.
    - rewrite !not_elem_of_cons. by split_and!.
    - intros x ->. destruct (Hx x eq_refl) as (e & msg & -> & Hl & Hre).
      exists e, msg. split; [done|]. split; [|done].
      change (last ([PortalGetByGcid (group_id item); LogDebug ("Syncing " +:+ group_id item); CreateMatrixRoom (group_id item)] ++ e2) = Some e).
      by rewrite last_app, Hl. }
  (* the conversation is left alone *)
  { destruct (sync_items max_sync w (S index) rest u) as [[u2 e2] r2] eqn:E.
    injection H as <- <- <-.
  destruct (IH _ _ _ _ _ E)
      as (Hp & Hlen & Hnd & Hcr & Hup & Hm1 & Hm2 & Hok & Hsame & Hdc & Hx).
    rewrite ?pushed_app, ?created_app, ?updated_app. simpl.
    split_and!.
    - done.
    - unfold window in *. lia.
    - done.
    - intros c Hc. destruct (Hcr c Hc) as [Hn Hin]. split; [done|].
      rewrite (window_closed max_sync (S index)), take_0 in Hin by lia.
      by apply elem_of_nil in Hin.
    - intros c Hc. destruct (Hup c Hc). split; [done|by right].
    - done.
    - done.
    - done.
    - done.
    - rewrite !not_elem_of_cons. by split_and!.
    - intros x ->. destruct (Hx x eq_refl) as (e & msg & -> & Hl & Hre).
      exists e, msg. split; [done|]. split; [|done].
      change (last ([PortalGetByGcid (group_id item); LogDebug ("Syncing " +:+ group_id item)] ++ e2) = Some e).
      by rewrite last_app, Hl. }
Qed.

(** [sync] in terms of its loop. *)
Lemma sync_run cfg (w : World) (u : User) :
  let fetched := [LogDebug "Fetching first page of the world"; ProtoPaginatedWorld] in
  sync cfg w u =
    match paginated_world w with
    | Failure msg => (u, fetched, Raise (Failed msg))
    | Answer items =>
        let '(u', tr, r) :=
          sync_items (initial_chat_sync cfg) w 0 (sort_items items) u in
        match r with
        | Raise x => (u', fetched ++ tr, Raise x)
        | Ok _ =>
            (u', fetched ++ tr ++ [UpdateDirectChats],
             match raises w UpdateDirectChats with
             | Some msg => Raise (Failed msg)
             | None => Ok ()
             end)
        end
    end.
Proof.
  intros fetched. subst fetched. unfold sync, call.
  unfold mbind, M_bind, perform, await.
  destruct (paginated_world w) as [items|msg]; [|done].
  destruct (sync_items (initial_chat_sync cfg) w 0 (sort_items items) u)
    as [[u' tr] [[]|x]]; [|done].
  by destruct (raises w UpdateDirectChats).
Qed.

(** [sync] calls [create_matrix_room] at most [initial_chat_sync] times,
    however it ends: never twice for one conversation, never for a
    conversation that had a mirror, and a conversation is updated only
    when it had a mirror or was given one earlier in the same run. No
    mirror is lost, and apart from the mirrors the account is unchanged;
    no bridge state is reported. *)
Theorem sync_creates_at_most_n cfg (w : World) (u : User) :
  let tr := (sync cfg w u).1.2 in
  let u' := (sync cfg w u).1.1 in
  (length (created tr) ≤ Z.to_nat (initial_chat_sync cfg))%nat ∧
  NoDup (created tr) ∧
  (∀ c, c ∈ created tr → c ∉ mirrored u) ∧
  (∀ c, c ∈ updated tr → c ∈ mirrored u ∨ c ∈ created tr) ∧
  (∀ c, c ∈ mirrored u → c ∈ mirrored u') ∧
  (∀ c, c ∈ mirrored u' → c ∈ mirrored u ∨ c ∈ created tr) ∧
  same_account u u' ∧
  pushed tr = [].
Proof.
  intros tr u'. subst tr u'. rewrite sync_run. cbv zeta.
  destruct (paginated_world w) as [items|msg].
  - destruct (sync_items (initial_chat_sync cfg) w 0 (sort_items items) u)
      as [[u' tr] r] eqn:E.
    destruct (sync_items_any _ _ _ _ _ _ _ _ E)
      as (Hp & Hlen & Hnd & Hcr & Hup & Hm1 & Hm2 & _ & Hsame & _ & _).
    assert (window (initial_chat_sync cfg) 0 = Z.to_nat (initial_chat_sync cfg))
      as Hw by (unfold window; f_equal; lia).
    rewrite Hw in Hlen.
    assert (∀ k : list Effect,
      (k = [] ∨ k = [UpdateDirectChats]) →
      created (tr ++ k) = created tr ∧ updated (tr ++ k) = updated tr ∧
      pushed (tr ++ k) = pushed tr) as Hk.
    { intros k [-> | ->]; rewrite ?created_app, ?updated_app, ?pushed_app;
        simpl; by rewrite ?app_nil_r. }
    destruct r as [[]|x]; cbn [fst snd].
    + destruct (Hk [UpdateDirectChats]) as (Hc1 & Hu1 & Hp1); [by right|].
      change (created ([LogDebug "Fetching first page of the world";
        ProtoPaginatedWorld] ++ tr ++ [UpdateDirectChats]))
        with (created (tr ++ [UpdateDirectChats])).
      change (updated ([LogDebug "Fetching first page of the world";
        ProtoPaginatedWorld] ++ tr ++ [UpdateDirectChats]))
        with (updated (tr ++ [UpdateDirectChats])).
      change (pushed ([LogDebug "Fetching first page of the world";
        ProtoPaginatedWorld] ++ tr ++ [UpdateDirectChats]))
        with (pushed (tr ++ [UpdateDirectChats])).
      rewrite Hc1, Hu1, Hp1. split_and!; try done.
      * intros c Hc. by apply Hcr.
      * intros c Hc. by apply Hup.
    + change (created ([LogDebug "Fetching first page of the world";
        ProtoPaginatedWorld] ++ tr)) with (created tr).
      change (updated ([LogDebug "Fetching first page of the world";
        ProtoPaginatedWorld] ++ tr)) with (updated tr).
      change (pushed ([LogDebug "Fetching first page of the world";
        ProtoPaginatedWorld] ++ tr)) with (pushed tr).
      split_and!; try done.
      * intros c Hc. by apply Hcr.
      * intros c Hc. by apply Hup.
  - cbn [fst snd]. simpl. split_and!; try done.
    + lia.
    + apply NoDup_nil_2.
    + intros c Hc. by apply elem_of_nil in Hc.
    + intros c Hc. by apply elem_of_nil in Hc.
    + auto.
Qed.

(** With two creations allowed and conversation A mirrored, a [sync]
    stopped by the room of C leaves A mirrored and has asked for one room. *)
Lemma sync_creates_at_most_n_witness :
  (length (created (sync sync_two no_room_for_c fresh_user).1.2) ≤ 2)%nat ∧
  "A" ∈ mirrored (sync sync_two no_room_for_c fresh_user).1.1.
Proof.
  destruct (sync_creates_at_most_n sync_two no_room_for_c fresh_user)
    as (Hlen & _ & _ & _ & Hkeep & _).
  split; [exact Hlen|]. apply Hkeep.
  change ("A" ∈ ({["A"]} : gset string)). by apply elem_of_singleton.
Defined.

(** What [sync] asks to create is what its loop asks to create. *)
Lemma sync_loop_trace cfg (w : World) (u : User)
    (items : list WorldItemLite) :
  paginated_world w = Answer items →
  ∃ u' tr r,
    sync_items (initial_chat_sync cfg) w 0 (sort_items items) u = (u', tr, r) ∧
    created (sync cfg w u).1.2 = created tr ∧
    updated (sync cfg w u).1.2 = updated tr.
Proof.
  intros Hw. rewrite sync_run, Hw. cbv zeta.
  destruct (sync_items (initial_chat_sync cfg) w 0 (sort_items items) u)
    as [[u' tr] r] eqn:E.
  exists u', tr, r. split; [done|].
  destruct r as [[]|x]; cbn [fst snd].
  - change (created (tr ++ [UpdateDirectChats]) = created tr ∧
            updated (tr ++ [UpdateDirectChats]) = updated tr).
    rewrite created_app, updated_app. simpl. by rewrite !app_nil_r.
  - done.
Qed.



(** A second [sync] over the same list of conversations, after one that
    returned, asks for no room, however it ends; when it returns too, every
    conversation the first one gave a mirror is updated by it. (A returned
    [create_matrix_room] is taken to leave the portal with a room.) *)
Theorem sync_again_creates_nothing cfg (w w' : World) (u : User)
    (items : list WorldItemLite) :
  paginated_world w = Answer items →
  paginated_world w' = Answer items →
  (sync cfg w u).2 = Ok () →
  let u1 := (sync cfg w u).1.1 in
  created (sync cfg w' u1).1.2 = [] ∧
  ((sync cfg w' u1).2 = Ok () →
   ∀ c, c ∈ created (sync cfg w u).1.2 → c ∈ updated (sync cfg w' u1).1.2).
Proof.
  intros Hw Hw' Hok u1. subst u1.
  destruct (sync_ok cfg w u items Hw Hok) as (u1 & tr1 & E1 & Hc1 & _).
  assert ((sync cfg w u).1.1 = u1) as ->.
  { rewrite sync_run, Hw. cbv zeta. by rewrite E1. }
  rewrite Hc1.
  destruct (sync_items_ok _ _ _ _ _ _ _ E1) as (Hcr1 & _ & _).
  destruct (sync_items_any _ _ _ _ _ _ _ _ E1)
    as (_ & _ & _ & Hin1 & _ & _ & Hkeep1 & Hnew1 & _).
  assert (∀ c, c ∈ map group_id (take (window (initial_chat_sync cfg) 0)
            (sort_items items)) → c ∈ mirrored u1) as Hall.
  { intros c Hc. destruct (decide (c ∈ mirrored u)) as [Hm|Hm].
    - by apply Hkeep1.
    - apply Hnew1; [done|]. by apply Hcr1. }
  split.
  - destruct (sync_loop_trace cfg w' u1 items Hw')
      as (u2 & tr2 & r2 & E2 & -> & _).
    destruct (sync_items_any _ _ _ _ _ _ _ _ E2) as (_ & _ & _ & Hin2 & _).
    destruct (created tr2) as [|c cs] eqn:Ec; [done|].
    destruct (Hin2 c) as [Hn Hc]; [by left|]. destruct Hn. by apply Hall.
  - intros Hok2 c Hc.
    destruct (sync_ok cfg w' u1 items Hw' Hok2) as (u2 & tr2 & E2 & _ & ->).
    destruct (sync_items_ok _ _ _ _ _ _ _ E2) as (_ & _ & Hup2).
    apply Hup2.
    + by apply Hnew1.
    + destruct (Hin1 c Hc) as [_ Hc']. rewrite list_elem_of_fmap in Hc'.
      destruct Hc' as (item & -> & Hitem). apply list_elem_of_fmap.
      exists item. split; [done|]. by apply (subseteq_take _ _ _ Hitem).
Qed.

(** A second [sync] of the three conversations, two allowed. *)
Lemma sync_again_witness :
  created (sync sync_two all_well (sync sync_two all_well fresh_user).1.1).1.2
    = [] ∧
  "C" ∈ updated
    (sync sync_two all_well (sync sync_two all_well fresh_user).1.1).1.2.
Proof.
  assert ((sync sync_two all_well fresh_user).2 = Ok ()) as Hok by (by vm_compute).
  destruct (sync_again_creates_nothing sync_two all_well all_well fresh_user
    three_chats eq_refl eq_refl Hok) as [Hnone Hup].
  split; [exact Hnone|]. apply Hup; [by vm_compute|].
  assert (created (sync sync_two all_well fresh_user).1.2 = ["C"]) as ->
    by (by vm_compute).
  by left.
Defined.

(** The identity lookup, the puppet step and [sync] report no bridge
    state; the puppet step changes nothing of the account. *)
Lemma get_self_pushes_nothing (w : World) (u : User) :
  pushed (get_self w u).1.2 = [].
Proof.
  unfold get_self, mbind, M_bind, get_state, await, modify, raise, mret, M_ret.
  destruct (truthy (gcid u)); [|destruct (self_user_status w)];
    cbn [fst snd]; try destruct (self_members w) as [[|m ms]|]; done.
Qed.

Lemma enable_custom_puppet_quiet (w : World) (u : User) :
  (enable_custom_puppet w u).1.1 = u ∧
  pushed (enable_custom_puppet w u).1.2 = [] ∧
  (Save ∉ (enable_custom_puppet w u).1.2).
Proof.
  unfold enable_custom_puppet, call.
  unfold mbind, M_bind, get_state, await, perform, mret, M_ret.
  destruct (puppet w) as [p|msg]; cbn [fst snd].
  - destruct (bool_decide (custom_mxid p ≠ Some (mxid u)) && can_auto_login p);
      [destruct (raises w (SwitchMxid (mxid u)))|]; cbn [fst snd];
      (split_and!; [done|done|not_listed]).
  - split_and!; [done|done|not_listed].
Qed.

Lemma sync_quiet cfg (w : World) (u : User) :
  same_account u (sync cfg w u).1.1 ∧ pushed (sync cfg w u).1.2 = [].
Proof.
  rewrite sync_run. cbv zeta. destruct (paginated_world w) as [items|msg].
  - destruct (sync_items (initial_chat_sync cfg) w 0 (sort_items items) u)
      as [[u' tr] r] eqn:E.
    destruct (sync_items_any _ _ _ _ _ _ _ _ E)
      as (Hp & _ & _ & _ & _ & _ & _ & _ & Hsame & _).
    destruct r as [[]|x]; cbn [fst snd]; (split; [done|]).
    + change (pushed (tr ++ [UpdateDirectChats]) = []).
      by rewrite pushed_app, Hp.
    + done.
  - by cbn [fst snd].
Qed.

(** A guarded step that only logs its failure. *)
Lemma try_except_run {S} (m : M S unit) (e : Effect) (s : S) :
  try_except m (λ _, perform e) s =
    ((m s).1.1,
     (m s).1.2 ++ match (m s).2 with Ok _ => [] | Raise _ => [e] end, Ok ()).
Proof.
  unfold try_except, perform. destruct (m s) as [[s1 e1] [[]|x]]; cbn [fst snd].
  - by rewrite app_nil_r.
  - done.
Qed.

(** [on_connect_later] after [get_self], step by step. *)
Lemma after_get_self_run cfg (w : World) (self_info : googlechat.User) (u : User) :
  let named := set_name (Some (own_name self_info)) u in
  let start := [PushBridgeState BACKFILLING None;
                LogDebug ("Found own name: " +:+ own_name self_info)] in
  let counted := start ++ [TrackMetric METRIC_CONNECTED true;
                           TrackMetric METRIC_LOGGED_IN true; Save] in
  after_get_self cfg w self_info u =
    match raises w (PushBridgeState BACKFILLING None) with
    | Some msg => (u, [PushBridgeState BACKFILLING None], Raise (Failed msg))
    | None =>
        match name_future u with
        | Pending =>
            let u1 := set_name_future (Resolved (own_name self_info)) named in
            match raises w Save with
            | Some msg => (u1, counted, Raise (Failed msg))
            | None =>
                let p := try_except (enable_custom_puppet w)
                  (λ _, perform (LogException
                     "Failed to automatically enable custom puppet")) u1 in
                let s := try_except (sync cfg w)
                  (λ _, perform (LogException
                     "Failed to sync conversations and users")) p.1.1 in
                (s.1.1,
                 counted ++ p.1.2 ++ s.1.2 ++ [PushBridgeState CONNECTED None],
                 match raises w (PushBridgeState CONNECTED None) with
                 | Some msg => Raise (Failed msg)
                 | None => Ok ()
                 end)
            end
        | _ => (named, start, Raise InvalidStateError)
        end
    end.
Proof.
  intros named start counted. subst named start counted.
  unfold after_get_self. fold (own_name self_info).
  unfold set_result, call.
  unfold mbind, M_bind, get_state, modify, perform, await, raise.
  destruct (raises w (PushBridgeState BACKFILLING None)); [done|].
  cbn [name_future set_name].
  destruct (name_future u); [|done|done].
  destruct (raises w Save); [done|].
  cbv zeta. unfold try_except.
  destruct (enable_custom_puppet w _) as [[u2 e2] [[]|x2]]; cbn [fst snd];
    (destruct (sync cfg w _) as [[u3 e3] [[]|x3]]); cbn [fst snd];
    destruct (raises w (PushBridgeState CONNECTED None)); cbn [fst snd];
    by rewrite <- ?app_assoc.
Qed.

Lemma on_connect_later_run cfg (w : World) (u : User) :
  on_connect_later cfg w u =
    match (get_self w u).2 with
    | Raise _ =>
        ((get_self w u).1.1,
         (get_self w u).1.2 ++ [LogException "Failed to get own info"], Ok ())
    | Ok self_info =>
        let r := after_get_self cfg w self_info (get_self w u).1.1 in
        (r.1.1, (get_self w u).1.2 ++ r.1.2, r.2)
    end.
Proof.
  unfold on_connect_later, catch, mbind, M_bind, perform.
  destruct (get_self w u) as [[u1 e1] [self_info|x]]; cbn [fst snd]; [|done].
  by destruct (after_get_self cfg w self_info u1) as [[u2 e2] r].
Qed.

(** The guarded puppet step and the guarded [sync]: no bridge state, no
    [save], and the name and its future are kept. *)
Lemma guarded_steps_quiet cfg (w : World) (u : User) :
  let p := try_except (enable_custom_puppet w)
    (λ _, perform (LogException
       "Failed to automatically enable custom puppet")) u in
  let s := try_except (sync cfg w)
    (λ _, perform (LogException
       "Failed to sync conversations and users")) p.1.1 in
  pushed (p.1.2 ++ s.1.2) = [] ∧ same_account u s.1.1.
Proof.
  intros p s. subst p s. rewrite !try_except_run. cbn [fst snd].
  destruct (enable_custom_puppet_quiet w u) as (Hu & Hp & _). rewrite Hu.
  destruct (sync_quiet cfg w u) as (Hsame & Hs).
  split; [|done]. rewrite !pushed_app, Hp, Hs.
  by destruct (enable_custom_puppet w u).2, (sync cfg w u).2.
Qed.

(** [on_connect_later] reports "backfilling" and then "connected", in
    this order and each at most once: nothing when [get_self] raises, and
    only "backfilling" when a step outside a [try] raises after it. When
    "connected" is reported it is the last effect, the account has been
    saved, and the name future, pending before, holds the account's name. *)
Theorem bootstrap_reports_in_order cfg (w : World) (u : User) :
  let tr := (on_connect_later cfg w u).1.2 in
  let u' := (on_connect_later cfg w u).1.1 in
  (pushed tr = [] ∨ pushed tr = [BACKFILLING] ∨
   pushed tr = [BACKFILLING; CONNECTED]) ∧
  (pushed tr = [] ↔ ∃ x, (get_self w u).2 = Raise x) ∧
  (pushed tr = [BACKFILLING; CONNECTED] →
   last tr = Some (PushBridgeState CONNECTED None) ∧ Save ∈ tr ∧
   name_future u = Pending ∧
   ∃ n, name_future u' = Resolved n ∧ name u' = Some n) ∧
  ((on_connect_later cfg w u).2 = Ok () → pushed tr ≠ [BACKFILLING]).
Proof.
  intros tr u'. subst tr u'. rewrite on_connect_later_run.
  pose proof (get_self_pushes_nothing w u) as Hq.
  pose proof (get_self_spec w u) as (Hfut & _ & _).
  destruct (get_self w u) as [[u1 e1] [self_info|x]]; cbn [fst snd] in *.
  2: { rewrite pushed_app, Hq. simpl. split_and!; try done; eauto.
       split; eauto. }
  rewrite after_get_self_run. cbv zeta. rewrite Hfut.
  destruct (raises w (PushBridgeState BACKFILLING None)) as [msg|].
  { cbn [fst snd]. rewrite pushed_app, Hq. simpl. split_and!; try done; eauto.
    split; [done|]. by intros [? ?]. }
  destruct (name_future u) eqn:Hnf.
  2,3: cbn [fst snd]; rewrite pushed_app, Hq; simpl;
    (split_and!; try done; eauto); split; [done|]; by intros [? ?].
  destruct (raises w Save) as [msg|].
  { cbn [fst snd]. rewrite pushed_app, Hq. simpl. split_and!; try done; eauto.
    split; [done|]. by intros [? ?]. }
  destruct (guarded_steps_quiet cfg w
    (set_name_future (Resolved (own_name self_info))
       (set_name (Some (own_name self_info)) u1))) as [Hg Hsame].
  cbv zeta in Hg, Hsame. cbn [fst snd].
  set (p := try_except (enable_custom_puppet w) _ _) in *.
  set (s := try_except (sync cfg w) _ _) in *.
  assert (pushed (e1 ++ ([PushBridgeState BACKFILLING None;
      LogDebug ("Found own name: " +:+ own_name self_info)] ++
      [TrackMetric METRIC_CONNECTED true; TrackMetric METRIC_LOGGED_IN true;
       Save]) ++ p.1.2 ++ s.1.2 ++ [PushBridgeState CONNECTED None]) =
    [BACKFILLING; CONNECTED]) as Hp.
  { rewrite (app_assoc p.1.2), pushed_app, Hq, pushed_app, (pushed_app (_ ++ _)), Hg.
    done. }
  rewrite Hp. split_and!; try done; eauto.
  - split; [done|]. by intros [? ?].
  - intros _. split_and!.
    + by rewrite !app_assoc, last_snoc.
    + rewrite !elem_of_app. right. left. right.
      rewrite !elem_of_cons. auto.
    + done.
    + destruct Hsame as (_ & _ & Hn & Hf). exists (own_name self_info).
      by rewrite Hn, Hf.
Qed.

(** A first login with collaborators that all answer. *)
Lemma bootstrap_reports_witness :
  ∃ n, name_future (on_connect_later sync_one all_well fresh_user).1.1 =
         Resolved n ∧
       name (on_connect_later sync_one all_well fresh_user).1.1 = Some n.
Proof.
  destruct (bootstrap_reports_in_order sync_one all_well fresh_user)
    as (_ & _ & H & _).
  destruct H as (_ & _ & _ & Hn); [by vm_compute|]. exact Hn.
Defined.

(** When the name future is done already, as an earlier
    [on_connect_later] of the same login leaves it, and [get_self] and the
    "backfilling" report return, [on_connect_later] raises
    [InvalidStateError] at [set_result]: it has reported "backfilling" and
    set [name], and it neither saves, nor syncs, nor reports "connected".
    The future stays as it was, so the next run ends the same way. *)
Theorem bootstrap_runs_once cfg (w : World) (u : User)
    (self_info : googlechat.User) :
  name_future u ≠ Pending →
  (get_self w u).2 = Ok self_info →
  raises w (PushBridgeState BACKFILLING None) = None →
  let tr := (on_connect_later cfg w u).1.2 in
  let u' := (on_connect_later cfg w u).1.1 in
  (on_connect_later cfg w u).2 = Raise InvalidStateError ∧
  pushed tr = [BACKFILLING] ∧
  (Save ∉ tr) ∧ (ProtoPaginatedWorld ∉ tr) ∧
  name u' = Some (own_name self_info) ∧
  name_future u' = name_future u.
Proof.
  intros Hdone Hself Hback tr u'. subst tr u'. rewrite on_connect_later_run.
  pose proof (get_self_pushes_nothing w u) as Hq.
  pose proof (get_self_spec w u) as (Hfut & _ & Heff).
  destruct (get_self w u) as [[u1 e1] r]; cbn [fst snd] in *. subst r.
  rewrite after_get_self_run. cbv zeta. rewrite Hback, Hfut.
  assert (∀ e, (∀ ids, e ≠ ProtoGetMembers ids) → e ≠ ProtoGetSelfUserStatus →
    e ∉ e1) as Hnot.
  { intros e H1 H2 Hin. destruct (Heff e Hin) as [?|[ids ?]]; [done|].
    by apply (H1 ids). }
  destruct (name_future u) eqn:Hnf; [done| |]; cbn [fst snd];
    rewrite pushed_app, Hq; (split_and!; try done);
    rewrite not_elem_of_app; (split; [by apply Hnot|not_listed]).
Qed.

(** The second [on_connect_later] of a login, after a first one that went
    through. *)
Lemma bootstrap_runs_once_witness :
  (on_connect_later sync_one all_well
     (on_connect_later sync_one all_well fresh_user).1.1).2 =
    Raise InvalidStateError.
Proof.
  refine (proj1 (bootstrap_runs_once sync_one all_well
    (on_connect_later sync_one all_well fresh_user).1.1
    (googlechat.user me) _ _ _)).
  - by vm_compute.
  - by vm_compute.
  - reflexivity.
Defined.

(** The first [get_self] of a login stores the id the service gives,
    whatever becomes of the member request that follows; when the id is not
    empty, a later [get_self] asks for the member only, with that id, and
    changes nothing. An empty id counts as none: the service is asked
    again. *)
Theorem get_self_keeps_the_id (w w' : World) (u : User) (info : string) :
  truthy (gcid u) = false →
  self_user_status w = Answer info →
  let u1 := (get_self w u).1.1 in
  gcid u1 = Some info ∧
  (get_self w u).1.2 = [ProtoGetSelfUserStatus; ProtoGetMembers [info]] ∧
  (info ≠ "" →
   (get_self w' u1).1.2 = [ProtoGetMembers [info]] ∧ (get_self w' u1).1.1 = u1) ∧
  (info = "" → head (get_self w' u1).1.2 = Some ProtoGetSelfUserStatus).
Proof.
  intros Hnone Hinfo u1. subst u1.
  assert ((get_self w u).1.1 = set_gcid (Some info) u ∧
    (get_self w u).1.2 = [ProtoGetSelfUserStatus; ProtoGetMembers [info]])
    as [-> ->].
  { unfold get_self, mbind, M_bind, get_state, await, modify, raise, mret, M_ret.
    rewrite Hnone, Hinfo. cbn [fst snd gcid set_gcid default].
    by destruct (self_members w) as [[|m ms]|]. }
  split_and!; [done|done| |].
  - intros Hne.
    assert (truthy (gcid (set_gcid (Some info) u)) = true) as Ht.
    { cbn [gcid set_gcid truthy]. apply negb_true_iff. by apply String.eqb_neq. }
    unfold get_self, mbind, M_bind, get_state, await, modify, raise, mret, M_ret.
    rewrite Ht. cbn [fst snd gcid set_gcid default].
    by destruct (self_members w') as [[|m ms]|].
  - intros ->.
    unfold get_self, mbind, M_bind, get_state, await, modify, raise, mret, M_ret.
    cbn [gcid set_gcid truthy String.eqb negb fst snd].
    destruct (self_user_status w') as [info'|msg]; [|done].
    cbn [fst snd]. by destruct (self_members w') as [[|m ms]|].
Qed.

(** The member request of the first [get_self] fails; the second
    [get_self] uses the id learnt by the first. *)
Lemma get_self_keeps_the_id_witness :
  (get_self members_refused fresh_user).2 = Raise (Failed "timeout") ∧
  (get_self all_well (get_self members_refused fresh_user).1.1).1.2 =
    [ProtoGetMembers ["me"]].
Proof.
  split; [by vm_compute|].
  destruct (get_self_keeps_the_id members_refused all_well fresh_user "me"
    eq_refl eq_refl) as (_ & _ & H & _).
  by destruct H.
Defined.

(** When the service returns no member for the account, [get_self]
    raises [IndexError] (unless the status request before it failed), and
    [on_connect_later] logs it and returns with no bridge state reported. *)
Theorem get_self_without_members cfg (w : World) (u : User) :
  self_members w = Answer [] →
  (truthy (gcid u) = true ∨ ∃ info, self_user_status w = Answer info) →
  (get_self w u).2 = Raise IndexError ∧
  (on_connect_later cfg w u).2 = Ok () ∧
  pushed (on_connect_later cfg w u).1.2 = [] ∧
  last (on_connect_later cfg w u).1.2 =
    Some (LogException "Failed to get own info").
Proof.
  intros Hm Hid.
  assert ((get_self w u).2 = Raise IndexError) as Hr.
  { unfold get_self, mbind, M_bind, get_state, await, modify, raise, mret, M_ret.
    rewrite Hm. destruct (truthy (gcid u)); [done|].
    destruct Hid as [?|[info ->]]; done. }
  split; [done|]. rewrite on_connect_later_run, Hr. cbn [fst snd].
  split_and!; [done| |by rewrite last_snoc].
  by rewrite pushed_app, get_self_pushes_nothing.
Qed.

(** The account is known to the service, but not among its members. *)
Lemma get_self_without_members_witness :
  (get_self no_members fresh_user).2 = Raise IndexError ∧
  (on_connect_later sync_one no_members fresh_user).2 = Ok ().
Proof.
  destruct (get_self_without_members sync_one no_members fresh_user eq_refl)
    as (H1 & H2 & _); [right; by exists "me"|]. by split.
Defined.

End BootstrapMore.

(** * Properties of logging out *)

Section AccountMore.
Import Account Observations.

(** [logout], by the way [stop] ends. *)
Lemma logout_run (raises : Effect → option string) (a : Account) :
  let flagged := set_session
    {| Supervisor.client := true; Supervisor._intentional_disconnect := true |} a in
  let cleared (a : Account) :=
    renew_name_future
      (set_profile
         (Bootstrap.set_name None (Bootstrap.set_gcid None (profile a)))
         (set_groups ∅ (set_users ∅ (set_connected false
            (set_refresh_token None (pop_by_gcid (set_session
               {| Supervisor.client := false;
                  Supervisor._intentional_disconnect :=
                    Supervisor._intentional_disconnect (session a) |} a))))))) in
  logout raises a =
    if Supervisor.client (session a) then
      match raises ClientDisconnect with
      | Some msg =>
          (flagged,
           [TrackMetric METRIC_LOGGED_IN false; SetIntentionalDisconnect true;
            ClientDisconnect], Raise (Failed msg))
      | None =>
          (cleared flagged,
           [TrackMetric METRIC_LOGGED_IN false; SetIntentionalDisconnect true;
            ClientDisconnect], Ok ())
      end
    else (cleared a, [TrackMetric METRIC_LOGGED_IN false], Ok ()).
Proof.
  intros flagged cleared. subst flagged cleared.
  unfold logout, stop, call.
  unfold mbind, M_bind, get_state, modify, perform, await, mret, M_ret.
  destruct (Supervisor.client (session a)) eqn:Hc;
    [destruct (raises ClientDisconnect)|];
    unfold renew_name_future, pop_by_gcid; cbn;
    try destruct (Bootstrap.gcid (profile a)); reflexivity.
Qed.

(** When [disconnect()] raises, [logout] raises the same error and clears
    nothing: the account has lowered the logged-in gauge and set the flag,
    and still has its client, token, remote id, index entry, caches, name
    and name future. *)
Theorem logout_interrupted (fails : Effect → option string) (a : Account)
    (msg : string) :
  Supervisor.client (session a) = true →
  fails ClientDisconnect = Some msg →
  logout fails a =
    (set_session {| Supervisor.client := true;
                    Supervisor._intentional_disconnect := true |} a,
     [TrackMetric METRIC_LOGGED_IN false; SetIntentionalDisconnect true;
      ClientDisconnect],
     Raise (Failed msg)) ∧
  is_logged_in (logout fails a).1.1 = is_logged_in a.
Proof.
  intros Hc Hf. rewrite logout_run. cbv zeta. rewrite Hc, Hf.
  split; [done|]. unfold is_logged_in. cbn. by rewrite Hc.
Qed.

Lemma logout_interrupted_witness :
  (logout disconnect_fails signed_in).2 = Raise (Failed "connection reset") ∧
  is_logged_in (logout disconnect_fails signed_in).1.1 = true.
Proof.
  destruct (logout_interrupted disconnect_fails signed_in "connection reset"
    eq_refl eq_refl) as [Hrun Hin].
  split; [by rewrite Hrun|]. by rewrite Hin.
Defined.



(** What [logout] leaves of the fields the bootstrap reads. *)
Lemma logout_profile (fails : Effect → option string) (a : Account) :
  (Supervisor.client (session a) = true → fails ClientDisconnect = None) →
  profile (logout fails a).1.1 =
    {| Bootstrap.mxid := Bootstrap.mxid (profile a); Bootstrap.gcid := None;
       Bootstrap.name := None; Bootstrap.name_future := Bootstrap.Pending;
       Bootstrap.mirrored := Bootstrap.mirrored (profile a) |}.
Proof.
  intros Hret. rewrite logout_run. cbv zeta.
  destruct (Supervisor.client (session a)) eqn:Hc; [rewrite Hret by done|];
    unfold renew_name_future, pop_by_gcid; cbn;
    by destruct (Bootstrap.gcid (profile a)).
Qed.

(** With a pending name future and the steps outside a [try] returning,
    [on_connect_later] goes through. *)
Lemma bootstrap_goes_through cfg (w : Bootstrap.World) (u : Bootstrap.User)
    (self_info : googlechat.User) :
  Bootstrap.name_future u = Bootstrap.Pending →
  (Bootstrap.get_self w u).2 = Ok self_info →
  Bootstrap.raises w (PushBridgeState BACKFILLING None) = None →
  Bootstrap.raises w Save = None →
  Bootstrap.raises w (PushBridgeState CONNECTED None) = None →
  (Bootstrap.on_connect_later cfg w u).2 = Ok () ∧
  pushed (Bootstrap.on_connect_later cfg w u).1.2 = [BACKFILLING; CONNECTED] ∧
  Bootstrap.name_future (Bootstrap.on_connect_later cfg w u).1.1 =
    Bootstrap.Resolved (own_name self_info) ∧
  ∃ rest, (Bootstrap.on_connect_later cfg w u).1.2 =
            (Bootstrap.get_self w u).1.2 ++ rest.
Proof.
  intros Hpend Hself Hb Hs Hc. rewrite on_connect_later_run.
  pose proof (get_self_pushes_nothing w u) as Hq.
  pose proof (get_self_spec w u) as (Hfut & _ & _).
  destruct (Bootstrap.get_self w u) as [[u1 e1] r]; cbn [fst snd] in *. subst r.
  rewrite after_get_self_run. cbv zeta. rewrite Hb, Hfut, Hpend, Hs, Hc.
  destruct (guarded_steps_quiet cfg w
    (Bootstrap.set_name_future (Bootstrap.Resolved (own_name self_info))
       (Bootstrap.set_name (Some (own_name self_info)) u1))) as [Hg Hsame].
  cbv zeta in Hg, Hsame. cbn [fst snd].
  set (p := try_except (Bootstrap.enable_custom_puppet w) _ _) in *.
  set (s := try_except (Bootstrap.sync cfg w) _ _) in *.
  split_and!.
  - done.
  - rewrite (app_assoc p.1.2), pushed_app, Hq, pushed_app,
      (pushed_app (_ ++ _)), Hg. done.
  - destruct Hsame as (_ & _ & _ & Hf). by rewrite Hf.
  - eauto.
Qed.

(** The first [on_connect_later] after a [logout] that returned asks the
    service who the account is, whatever the account knew before, and goes
    through to "connected" when [get_self] and the steps outside a [try]
    return: [logout] has replaced the name future, so [set_result] does not
    fail as it does on a second connect of one login. *)
Theorem login_after_logout (fails : Effect → option string) (a : Account) cfg
    (w : Bootstrap.World) (self_info : googlechat.User) :
  (Supervisor.client (session a) = true → fails ClientDisconnect = None) →
  let u := profile (logout fails a).1.1 in
  (Bootstrap.get_self w u).2 = Ok self_info →
  Bootstrap.raises w (PushBridgeState BACKFILLING None) = None →
  Bootstrap.raises w Save = None →
  Bootstrap.raises w (PushBridgeState CONNECTED None) = None →
  let run := Bootstrap.on_connect_later cfg w u in
  run.2 = Ok () ∧
  head run.1.2 = Some ProtoGetSelfUserStatus ∧
  pushed run.1.2 = [BACKFILLING; CONNECTED] ∧
  Bootstrap.name_future run.1.1 = Bootstrap.Resolved (own_name self_info).
Proof.
  intros Hret u Hself Hb Hs Hc run. subst run u.
  rewrite logout_profile in * by done.
  set (u := {| Bootstrap.mxid := _ |}) in *.
  destruct (bootstrap_goes_through cfg w u self_info eq_refl Hself Hb Hs Hc)
    as (Hr & Hp & Hf & rest & Htr).
  split_and!; try done. rewrite Htr.
  revert Hself. unfold Bootstrap.get_self.
  unfold mbind, M_bind, get_state, await, modify, raise, mret, M_ret.
  cbn [Bootstrap.gcid u Bootstrap.truthy].
  destruct (Bootstrap.self_user_status w); [|done]. cbn [fst snd].
  by destruct (Bootstrap.self_members w) as [[|m ms]|].
Qed.

(** An account whose name future was resolved logs out and connects
    again. *)
Lemma login_after_logout_witness :
  (Bootstrap.on_connect_later Bootstrap.sync_one Bootstrap.all_well
     (profile signed_in)).2 = Raise InvalidStateError ∧
  (Bootstrap.on_connect_later Bootstrap.sync_one Bootstrap.all_well
     (profile (logout (λ _, None) signed_in).1.1)).2 = Ok ().
Proof.
  split; [by vm_compute|].
  refine (proj1 (login_after_logout (λ _, None) signed_in Bootstrap.sync_one
    Bootstrap.all_well (googlechat.user Bootstrap.me) (λ _, eq_refl) _ _ _ _)).
  - by vm_compute.
  - reflexivity.
  - reflexivity.
  - reflexivity.
Defined.

(** A second [logout] does not touch the client, whatever
    [disconnect()] would do: it lowers the gauge again and fails the
    pending name future it finds, and leaves the rest as the first did. *)
Theorem logout_twice (fails fails' : Effect → option string) (a : Account) :
  (Supervisor.client (session a) = true → fails ClientDisconnect = None) →
  let a1 := (logout fails a).1.1 in
  logout fails' a1 =
    (set_dropped (Bootstrap.Rejected "logged out" :: dropped a1) a1,
     [TrackMetric METRIC_LOGGED_IN false], Ok ()).
Proof.
  intros Hret a1. subst a1. rewrite (logout_run fails'). cbv zeta.
  rewrite (logout_run fails). cbv zeta.
  destruct (Supervisor.client (session a)) eqn:Hc; [rewrite Hret by done|];
    cbn [fst snd]; unfold renew_name_future, pop_by_gcid; cbn;
    by destruct (Bootstrap.gcid (profile a)).
Qed.

Lemma logout_twice_witness :
  (logout disconnect_fails (logout (λ _, None) signed_in).1.1).2 = Ok ().
Proof.
  by rewrite (logout_twice (λ _, None) disconnect_fails signed_in (λ _, eq_refl)).
Defined.

End AccountMore.

(** * Properties of the notice room *)

Section NoticeRoomMore.
Import NoticeRoom.

Lemma init_invariant (room : option string) : invariant (init room).
Proof.
  split; cbn [init lock tasks rooms saves notice_room]; try done.
  - intros room' H. by apply elem_of_nil in H.
  - simpl. lia.
Qed.

Lemma only_holder (c : State) (i : nat) (t : Task) :
  invariant c → tasks c !! i = Some t → in_lock t = true →
  lock c = true ∧
  ∀ j t', j ≠ i → tasks c !! j = Some t' → in_lock t' = false.
Proof.
  intros Hinv Hi Ht. split.
  - destruct (lock c) eqn:Hl; [done|].
    rewrite (lock_free c Hinv Hl i t Hi) in Ht. done.
  - intros j t' Hne Hj. destruct (in_lock t') eqn:Ht'; [|done].
    destruct Hne. symmetry. by apply (one_in_lock c Hinv i j t t').
Qed.

(** The holder of the lock finishes. *)
Lemma release_invariant (c : State) (i : nat) (t : Task)
    (r : Result (option string)) :
  invariant c → tasks c !! i = Some t → in_lock t = true →
  (∀ v, r = Ok v → Bootstrap.truthy v = true → v = notice_room c) →
  invariant (set_task i (Finished r) false c).
Proof.
  intros Hinv Hi Ht Hr. destruct (only_holder c i t Hinv Hi Ht) as [Hl Hothers].
  split; cbn [set_task lock tasks rooms saves notice_room].
  - intros _ j t' Hj.
    apply list_lookup_insert_Some in Hj as [(_ & <- & _)|[Hne Hj]]; [done|].
    apply (Hothers j t'); [congruence|done].
  - done.
  - intros j k t1 t2 Hj Hk H1 H2.
    apply list_lookup_insert_Some in Hj as [(_ & <- & _)|[Hne Hj]]; [done|].
    rewrite (Hothers j t1) in H1; [done|congruence|done].
  - intros j Hj.
    apply list_lookup_insert_Some in Hj as [(_ & ? & _)|[Hne Hj]]; [done|].
    by apply (creating_without_room c Hinv j).
  - apply (rooms_kept c Hinv).
  - apply (one_room c Hinv).
  - intros j v Hj Hv.
    apply list_lookup_insert_Some in Hj as [(_ & [= ->] & _)|[Hne Hj]].
    + by apply Hr.
    + by apply (results_agree c Hinv j).
  - apply (saves_counted c Hinv).
Qed.

Lemma step_invariant (federate : bool) (s : Step) (c c' : State) :
  invariant c → step federate s c = Some c' → invariant c'.
Proof.
  intros Hinv Hstep. destruct s as [|i|i resp|i error]; simpl in Hstep.
  - (* a new call *)
    injection Hstep as <-.
    set (t0 := if Bootstrap.truthy (notice_room c)
               then Finished (Ok (notice_room c)) else Waiting).
    assert (in_lock t0 = false) as Ht0
      by (subst t0; by destruct (Bootstrap.truthy (notice_room c))).
    split; cbn [lock tasks rooms saves notice_room].
    + intros Hl j t Hj. apply lookup_snoc_Some in Hj as [Hj | ->]; [|done].
      by apply (lock_free c Hinv Hl j).
    + intros Hl. destruct (lock_taken c Hinv Hl) as (j & t & Hj & Ht).
      exists j, t. split; [|done]. by apply lookup_app_l_Some.
    + intros j k t1 t2 Hj Hk H1 H2.
      apply lookup_snoc_Some in Hj as [Hj | ->]; [|congruence].
      apply lookup_snoc_Some in Hk as [Hk | ->]; [|congruence].
      by apply (one_in_lock c Hinv j k t1 t2).
    + intros j Hj. apply lookup_snoc_Some in Hj as [Hj|Hj].
      * by apply (creating_without_room c Hinv j).
      * subst t0. by destruct (Bootstrap.truthy (notice_room c)).
    + apply (rooms_kept c Hinv).
    + apply (one_room c Hinv).
    + intros j v Hj Hv. apply lookup_snoc_Some in Hj as [Hj|Hj].
      * by apply (results_agree c Hinv j).
      * subst t0. destruct (Bootstrap.truthy (notice_room c)); congruence.
    + apply (saves_counted c Hinv).
  - (* a waiting call finds the lock free *)
    destruct (tasks c !! i) as [[| | |r]|] eqn:Hi; try done.
    destruct (lock c) eqn:Hl; [done|].
    pose proof (lock_free c Hinv Hl) as Hfree.
    destruct (Bootstrap.truthy (notice_room c)) eqn:Hroom; injection Hstep as <-.
    + split; cbn [set_task lock tasks rooms saves notice_room].
      * intros _ j t Hj.
        apply list_lookup_insert_Some in Hj as [(_ & <- & _)|[Hne Hj]]; [done|].
        by apply (Hfree j).
      * done.
      * intros j k t1 t2 Hj Hk H1 H2.
        apply list_lookup_insert_Some in Hj as [(_ & <- & _)|[Hne Hj]]; [done|].
        rewrite (Hfree j t1 Hj) in H1. done.
      * intros j Hj.
        apply list_lookup_insert_Some in Hj as [(_ & ? & _)|[Hne Hj]]; [done|].
        by apply (creating_without_room c Hinv j).
      * apply (rooms_kept c Hinv).
      * apply (one_room c Hinv).
      * intros j v Hj Hv.
        apply list_lookup_insert_Some in Hj as [(_ & [= ->] & _)|[Hne Hj]]; [done|].
        by apply (results_agree c Hinv j).
      * apply (saves_counted c Hinv).
    + split; cbn [lock tasks rooms saves notice_room].
      * done.
      * intros _. exists i, Creating. split; [|done].
        apply list_lookup_insert_Some. left.
        split_and!; try done. by apply lookup_lt_Some in Hi.
      * intros j k t1 t2 Hj Hk H1 H2.
        apply list_lookup_insert_Some in Hj as [(<- & _)|[Hne Hj]];
          [|rewrite (Hfree j t1 Hj) in H1; done].
        apply list_lookup_insert_Some in Hk as [(<- & _)|[Hne Hk]];
          [done|rewrite (Hfree k t2 Hk) in H2; done].
      * done.
      * apply (rooms_kept c Hinv).
      * apply (one_room c Hinv).
      * intros j v Hj Hv.
        apply list_lookup_insert_Some in Hj as [(_ & ? & _)|[Hne Hj]]; [done|].
        by apply (results_agree c Hinv j).
      * apply (saves_counted c Hinv).
  - (* [create_room] ends *)
    destruct (tasks c !! i) as [[| | |r]|] eqn:Hi; try done.
    destruct resp as [room|e]; injection Hstep as <-;
      [|by apply (release_invariant c i Creating)].
    destruct (only_holder c i Creating Hinv Hi eq_refl) as [Hl Hothers].
    pose proof (creating_without_room c Hinv i Hi) as Hnone.
    assert (∀ room', room' ∈ rooms c → room' = "") as Hempty.
    { intros room' Hin. destruct (decide (room' = "")) as [|Hne]; [done|].
      rewrite (rooms_kept c Hinv room' Hin Hne) in Hnone.
      cbn [Bootstrap.truthy] in Hnone. apply negb_false_iff in Hnone.
      by apply String.eqb_eq in Hnone. }
    split; cbn [lock tasks rooms saves notice_room].
    + by rewrite Hl.
    + intros _. exists i, Saving. split; [|done].
      apply list_lookup_insert_Some. left.
      split_and!; try done. by apply lookup_lt_Some in Hi.
    + intros j k t1 t2 Hj Hk H1 H2.
      apply list_lookup_insert_Some in Hj as [(<- & _)|[Hne Hj]];
        [|rewrite (Hothers j t1) in H1; [done|congruence|done]].
      apply list_lookup_insert_Some in Hk as [(<- & _)|[Hne Hk]];
        [done|rewrite (Hothers k t2) in H2; [done|congruence|done]].
    + intros j Hj.
      apply list_lookup_insert_Some in Hj as [(_ & ? & _)|[Hne Hj]]; [done|].
      by specialize (Hothers j Creating (not_eq_sym Hne) Hj).
    + intros room' Hin Hne. apply elem_of_app in Hin as [Hin|Hin].
      * by destruct Hne, (Hempty room' Hin).
      * by apply list_elem_of_singleton in Hin as ->.
    + rewrite filter_app, length_app.
      assert (filter (λ room', room' ≠ "") (rooms c) = []) as ->.
      { destruct (filter (λ room', room' ≠ "") (rooms c)) as [|r rs] eqn:E;
          [done|].
        assert (r ∈ filter (λ room', room' ≠ "") (rooms c)) as Hin
          by (rewrite E; by left).
        apply list_elem_of_filter in Hin as [Hne Hin]. destruct Hne.
        by apply Hempty. }
      rewrite filter_cons, filter_nil. destruct (decide (room ≠ "")); simpl; lia.
    + intros j v Hj Hv.
      apply list_lookup_insert_Some in Hj as [(_ & ? & _)|[Hne Hj]]; [done|].
      rewrite (results_agree c Hinv j v Hj Hv) in Hv. congruence.
    + rewrite length_app, (saves_counted c Hinv). simpl. lia.
  - (* [save] ends *)
    destruct (tasks c !! i) as [[| | |r]|] eqn:Hi; try done.
    destruct error as [e|]; injection Hstep as <-;
      apply (release_invariant c i Saving); try done.
    by intros v [= <-].
Qed.

Lemma run_invariant (federate : bool) (steps : list Step) :
  ∀ c c', invariant c → run federate steps c = Some c' → invariant c'.
Proof.
  induction steps as [|s steps IH]; intros c c' Hinv Hrun; simpl in Hrun.
  - by injection Hrun as <-.
  - destruct (step federate s c) as [c1|] eqn:Hs; [|done].
    eapply IH; [|done]. by eapply step_invariant.
Qed.

Lemma step_requests (federate : bool) (s : Step) (c c' : State) :
  step federate s c = Some c' →
  ∀ v, v ∈ create_requests c' →
       v ∈ create_requests c ∨ v = (if federate then None else Some false).
Proof.
  intros Hstep v Hv. destruct s as [|i|i resp|i error]; simpl in Hstep.
  - injection Hstep as <-. by left.
  - destruct (tasks c !! i) as [[| | |r]|]; try done.
    destruct (lock c); [done|].
    destruct (Bootstrap.truthy (notice_room c)); injection Hstep as <-;
      [by left|]. cbn [create_requests] in Hv.
    apply elem_of_app in Hv as [Hv|Hv]; [by left|].
    apply list_elem_of_singleton in Hv. by right.
  - destruct (tasks c !! i) as [[| | |r]|]; try done.
    destruct resp; injection Hstep as <-; by left.
  - destruct (tasks c !! i) as [[| | |r]|]; try done.
    destruct error; injection Hstep as <-; by left.
Qed.

Lemma run_requests (federate : bool) (steps : list Step) :
  ∀ c c', run federate steps c = Some c' →
    ∀ v, v ∈ create_requests c' →
         v ∈ create_requests c ∨ v = (if federate then None else Some false).
Proof.
  induction steps as [|s steps IH]; intros c c' Hrun v Hv; simpl in Hrun.
  - injection Hrun as <-. by left.
  - destruct (step federate s c) as [c1|] eqn:Hs; [|done].
    destruct (IH c1 c' Hrun v Hv) as [Hin|?]; [|by right].
    by apply (step_requests federate s c c1).
Qed.

(** Whatever the schedule of concurrent calls of [get_notice_room], at
    most one room with a non-empty id is ever created, and it is the
    account's notice room from then on; [save] is called once for every room
    that [create_room] returns; and every [create_room] is asked not to
    federate exactly when federation is off in the configuration. *)
Theorem notice_room_created_once (federate : bool) (steps : list Step)
    (room0 : option string) (c : State) :
  run federate steps (init room0) = Some c →
  (length (filter (λ room, room ≠ "") (rooms c)) ≤ 1)%nat ∧
  (∀ room, room ∈ rooms c → room ≠ "" → notice_room c = Some room) ∧
  saves c = length (rooms c) ∧
  (∀ v, v ∈ create_requests c → v = if federate then None else Some false).
Proof.
  intros Hrun.
  pose proof (run_invariant federate steps _ _ (init_invariant room0) Hrun)
    as Hinv.
  split_and!.
  - apply (one_room c Hinv).
  - apply (rooms_kept c Hinv).
  - apply (saves_counted c Hinv).
  - intros v Hv. destruct (run_requests federate steps _ _ Hrun v Hv) as [Hin|?];
      [|done]. by apply elem_of_nil in Hin.
Qed.

(** Two concurrent callers: one room, saved once. *)
Lemma notice_room_created_once_witness :
  ∃ c, run false two_callers (init None) = Some c ∧
       rooms c = ["!notices:example.org"] ∧
       notice_room c = Some "!notices:example.org" ∧ saves c = 1%nat.
Proof.
  destruct (run false two_callers (init None)) as [c|] eqn:E;
    [|by vm_compute in E].
  destruct (notice_room_created_once false two_callers None c E)
    as (_ & Hroom & Hsaves & _).
  assert (rooms c = ["!notices:example.org"]) as Hr.
  { vm_compute in E. by injection E as <-. }
  exists c. split_and!; try done.
  - apply Hroom; [|done]. rewrite Hr. by left.
  - by rewrite Hsaves, Hr.
Defined.

(** All calls of [get_notice_room] that return a non-empty room id return
    the same one, the account's notice room, whatever the schedule. *)
Theorem notice_room_same_for_all (federate : bool) (steps : list Step)
    (room0 : option string) (c : State) (i j : nat) (r r' : option string) :
  run federate steps (init room0) = Some c →
  tasks c !! i = Some (Finished (Ok r)) →
  tasks c !! j = Some (Finished (Ok r')) →
  Bootstrap.truthy r = true → Bootstrap.truthy r' = true →
  r = r' ∧ r = notice_room c.
Proof.
  intros Hrun Hi Hj Hr Hr'.
  pose proof (run_invariant federate steps _ _ (init_invariant room0) Hrun)
    as Hinv.
  rewrite (results_agree c Hinv i r Hi Hr), (results_agree c Hinv j r' Hj Hr').
  done.
Qed.

Lemma notice_room_same_for_all_witness :
  ∃ c, run false two_callers (init None) = Some c ∧
       tasks c !! 1%nat = Some (Finished (Ok (Some "!notices:example.org"))) ∧
       Some "!notices:example.org" = notice_room c.
Proof.
  destruct (run false two_callers (init None)) as [c|] eqn:E;
    [|by vm_compute in E].
  assert (tasks c = [Finished (Ok (Some "!notices:example.org"));
                     Finished (Ok (Some "!notices:example.org"))]) as Ht.
  { vm_compute in E. by injection E as <-. }
  assert (tasks c !! 0%nat = Some (Finished (Ok (Some "!notices:example.org"))))
    as H0 by (by rewrite Ht).
  assert (tasks c !! 1%nat = Some (Finished (Ok (Some "!notices:example.org"))))
    as H1 by (by rewrite Ht).
  exists c. split; [done|]. split; [done|].
  exact (proj2 (notice_room_same_for_all false two_callers None c 0 1 _ _
    E H0 H1 eq_refl eq_refl)).
Defined.

(** The lock of the notice room is taken exactly while one call awaits
    [create_room] or [save], and at most one call does, whatever the
    schedule; a call awaits [create_room] only while the account has no
    room. *)
Theorem notice_room_lock_discipline (federate : bool) (steps : list Step)
    (room0 : option string) (c : State) :
  run federate steps (init room0) = Some c →
  (lock c = true ↔ ∃ i t, tasks c !! i = Some t ∧ in_lock t = true) ∧
  (∀ i j t t', tasks c !! i = Some t → tasks c !! j = Some t' →
               in_lock t = true → in_lock t' = true → i = j) ∧
  (∀ i, tasks c !! i = Some Creating →
        Bootstrap.truthy (notice_room c) = false).
Proof.
  intros Hrun.
  pose proof (run_invariant federate steps _ _ (init_invariant room0) Hrun)
    as Hinv.
  split_and!.
  - split; [apply (lock_taken c Hinv)|].
    intros (i & t & Hi & Ht). by destruct (only_holder c i t Hinv Hi Ht).
  - apply (one_in_lock c Hinv).
  - apply (creating_without_room c Hinv).
Qed.

(** While the first caller awaits [create_room], the second waits. *)
Lemma notice_room_lock_witness :
  ∃ c, run true [Call; Call; Acquire 0] (init None) = Some c ∧
       lock c = true ∧ step true (Acquire 1) c = None.
Proof.
  destruct (run true [Call; Call; Acquire 0] (init None)) as [c|] eqn:E;
    [|by vm_compute in E].
  assert (tasks c = [Creating; Waiting]) as Ht.
  { vm_compute in E. by injection E as <-. }
  assert (lock c = true) as Hl.
  { apply (proj1 (notice_room_lock_discipline true _ None c E)).
    exists 0%nat, Creating. by rewrite Ht. }
  exists c. split_and!; try done. simpl. by rewrite Ht, Hl.
Defined.

(** The room is known and no call has the lock: every call returns it. *)
Lemma settled_step (federate : bool) (s : Step) (c c' : State) :
  invariant c → settled c → step federate s c = Some c' →
  settled c' ∧ notice_room c' = notice_room c ∧ rooms c' = rooms c ∧
  create_requests c' = create_requests c ∧ saves c' = saves c ∧
  ∀ i t, tasks c' !! i = Some t →
         tasks c !! i = Some t ∨ t = Finished (Ok (notice_room c)).
Proof.
  intros Hinv [Hroom Hsaving] Hstep.
  destruct s as [|i|i resp|i error]; simpl in Hstep.
  - rewrite Hroom in Hstep. injection Hstep as <-.
    cbn [notice_room rooms create_requests saves tasks].
    split_and!; try done.
    + split; [done|]. cbn [tasks]. intros i Hi.
      apply lookup_snoc_Some in Hi as [Hi|?]; [|done]. by apply (Hsaving i).
    + intros i t Hi. apply lookup_snoc_Some in Hi as [Hi | ->]; auto.
  - destruct (tasks c !! i) as [[| | |r]|] eqn:Hi; try done.
    destruct (lock c); [done|]. rewrite Hroom in Hstep. injection Hstep as <-.
    cbn [set_task notice_room rooms create_requests saves tasks].
    split_and!; try done.
    + split; [done|]. cbn [set_task tasks]. intros j Hj.
      apply list_lookup_insert_Some in Hj as [(_ & ? & _)|[_ Hj]]; [done|].
      by apply (Hsaving j).
    + intros j t Hj.
      apply list_lookup_insert_Some in Hj as [(_ & <- & _)|[_ Hj]]; auto.
  - destruct (tasks c !! i) as [[| | |r]|] eqn:Hi; try done.
    rewrite (creating_without_room c Hinv i Hi) in Hroom. done.
  - destruct (tasks c !! i) as [[| | |r]|] eqn:Hi; try done.
    by destruct (Hsaving i).
Qed.

Lemma settled_run (federate : bool) (steps : list Step) :
  ∀ c c', invariant c → settled c → run federate steps c = Some c' →
    settled c' ∧ notice_room c' = notice_room c ∧ rooms c' = rooms c ∧
    create_requests c' = create_requests c ∧ saves c' = saves c ∧
    ∀ i t, tasks c' !! i = Some t →
           tasks c !! i = Some t ∨ t = Finished (Ok (notice_room c)).
Proof.
  induction steps as [|s steps IH]; intros c c' Hinv Hset Hrun; simpl in Hrun.
  - injection Hrun as <-. split_and!; auto.
  - destruct (step federate s c) as [c1|] eqn:Hs; [|done].
    destruct (settled_step federate s c c1 Hinv Hset Hs)
      as (Hset1 & Hn1 & Hr1 & Hq1 & Hs1 & Ht1).
    destruct (IH c1 c' (step_invariant federate s c c1 Hinv Hs) Hset1 Hrun)
      as (Hset' & Hn' & Hr' & Hq' & Hs' & Ht').
    split_and!; try congruence.
    intros i t Hi. destruct (Ht' i t Hi) as [Hi1 | ->].
    + apply (Ht1 i t Hi1).
    + right. by rewrite Hn1.
Qed.

(** Once the account has a notice room and the call that created it is
    through with [save], whether [save] returned or raised, nothing more is
    created or saved, whatever calls follow: the room stays, and every call
    that ends afterwards returns it. A room whose [save] failed is thus
    never saved. *)
Theorem notice_room_settled (federate : bool) (before after : list Step)
    (room0 : option string) (c c' : State) :
  run federate before (init room0) = Some c →
  Bootstrap.truthy (notice_room c) = true →
  (∀ i, tasks c !! i ≠ Some Saving) →
  run federate after c = Some c' →
  notice_room c' = notice_room c ∧ rooms c' = rooms c ∧
  create_requests c' = create_requests c ∧ saves c' = saves c ∧
  ∀ i t, tasks c' !! i = Some t →
         tasks c !! i = Some t ∨ t = Finished (Ok (notice_room c)).
Proof.
  intros Hbefore Hroom Hsaving Hafter.
  pose proof (run_invariant federate before _ _ (init_invariant room0) Hbefore)
    as Hinv.
  by destruct (settled_run federate after c c' Hinv (conj Hroom Hsaving) Hafter)
    as (_ & H).
Qed.

(** The room is created, [save] raises, and a later call returns the room
    without another [save]. *)
Lemma notice_room_settled_witness :
  ∃ c c', run false (take 4 save_fails_then_call) (init None) = Some c ∧
          run false (drop 4 save_fails_then_call) c = Some c' ∧
          tasks c !! 0%nat = Some (Finished (Raise (Failed "database is locked"))) ∧
          tasks c' !! 1%nat = Some (Finished (Ok (Some "!notices:example.org"))) ∧
          saves c' = 1%nat.
Proof.
  destruct (run false (take 4 save_fails_then_call) (init None)) as [c|] eqn:E;
    [|by vm_compute in E].
  assert (c = {| notice_room := Some "!notices:example.org"; lock := false;
                 tasks := [Finished (Raise (Failed "database is locked"))];
                 create_requests := [Some false];
                 rooms := ["!notices:example.org"]; saves := 1 |}) as Hc.
  { vm_compute in E. by injection E as <-. }
  destruct (run false (drop 4 save_fails_then_call) c) as [c'|] eqn:E';
    [|rewrite Hc in E'; by vm_compute in E'].
  assert (tasks c' !! 1%nat = Some (Finished (Ok (Some "!notices:example.org"))))
    as Ht.
  { rewrite Hc in E'. vm_compute in E'. by injection E' as <-. }
  destruct (notice_room_settled false (take 4 save_fails_then_call)
    (drop 4 save_fails_then_call) None c c' E) as (_ & _ & _ & Hs & _);
    [by rewrite Hc| |done|].
  { intros i Hi. rewrite Hc in Hi. by destruct i as [|[|i]]. }
  exists c, c'. split_and!; try done.
  - by rewrite Hc.
  - by rewrite Hs, Hc.
Defined.

End NoticeRoomMore.

(** * Properties of the index of accounts *)

Section RegistryMore.
Import Registry.

Lemma add_to_cache_by_mxid (user : Entry) (ix : Index) :
  by_mxid (_add_to_cache user ix) = <[mxid user := user]> (by_mxid ix).
Proof. done. Qed.

(** A lookup by [mxid] that returns an account of that [mxid] leaves it
    in the index, and the same lookup afterwards returns the same object
    without asking the database, whatever the database would answer and
    whether or not creation is allowed. *)
Theorem get_by_mxid_memoizes (w : World) (m : string) (create create' : bool)
    (ix ix' : Index) (tr : list Query) (user : Entry)
    (row' : Response (option Entry)) (insert_error' : option string) :
  get_by_mxid w m create ix = (ix', tr, Ok (Some user)) →
  mxid user = m →
  by_mxid ix' !! m = Some user ∧
  get_by_mxid
    {| is_puppet := is_puppet w; bot_mxid := bot_mxid w; row := row';
       insert_error := insert_error' |} m create' ix' =
    (ix', [], Ok (Some user)).
Proof.
  intros Hget Hm. unfold get_by_mxid in *. cbn [is_puppet bot_mxid row].
  destruct (is_puppet w m || String.eqb m (bot_mxid w)); [done|].
  assert (by_mxid ix' !! m = Some user) as Hin.
  { destruct (by_mxid ix !! m) as [known|] eqn:Hk.
    - by injection Hget as <- <- <-.
    - destruct (row w) as [[found|]|e]; [| |done].
      + injection Hget as <- <- <-. rewrite add_to_cache_by_mxid, Hm.
        apply lookup_insert_eq.
      + destruct create; [|done]. destruct (insert_error w); [done|].
        injection Hget as <- <- <-. apply lookup_insert_eq. }
  split; [done|]. by rewrite Hin.
Qed.

(** Alice is in the database and not yet in the index. *)
Lemma get_by_mxid_memoizes_witness :
  let first := get_by_mxid (example_world (Answer (Some alice)))
                 "@alice:example.org" false empty_index in
  first.1.2 = [DbGetByMxid "@alice:example.org"] ∧
  get_by_mxid (example_world (Failure "database is down"))
    "@alice:example.org" true first.1.1 = (first.1.1, [], Ok (Some alice)).
Proof.
  intros first. split; [done|].
  exact (proj2 (get_by_mxid_memoizes (example_world (Answer (Some alice)))
    "@alice:example.org" false true empty_index first.1.1 first.1.2 alice
    (Failure "database is down") None eq_refl eq_refl)).
Defined.

(** [get_by_mxid] asks nothing and returns nothing for a puppet and for
    the bridge bot. It changes the index only when it returns an account. It
    inserts a row only when creation is allowed and neither the index nor
    the database has the account; and when it returns nothing, that is
    because the [mxid] is a puppet's or the bot's, or because the database
    has no row and creation is not allowed. *)
Theorem get_by_mxid_creates_only_when_asked (w : World) (m : string)
    (create : bool) (ix : Index) :
  let run := get_by_mxid w m create ix in
  (is_puppet w m = true ∨ m = bot_mxid w → run = (ix, [], Ok None)) ∧
  ((∀ user, run.2 ≠ Ok (Some user)) → run.1.1 = ix) ∧
  (DbInsert m ∈ run.1.2 →
   create = true ∧ row w = Answer None ∧ by_mxid ix !! m = None) ∧
  (run.2 = Ok None →
   is_puppet w m = true ∨ m = bot_mxid w ∨
   (create = false ∧ row w = Answer None)).
Proof.
  intros run. subst run. unfold get_by_mxid.
  destruct (is_puppet w m) eqn:Hp; cbn [orb].
  { split_and!; try done; auto. intros Hin. by apply elem_of_nil in Hin. }
  destruct (String.eqb m (bot_mxid w)) eqn:Hb.
  { apply String.eqb_eq in Hb. split_and!; try done; auto.
    intros Hin. by apply elem_of_nil in Hin. }
  apply String.eqb_neq in Hb.
  assert (¬ (false = true ∨ m = bot_mxid w)) as Hno by (intros [?|?]; done).
  destruct (by_mxid ix !! m) as [known|] eqn:Hk; cbn [fst snd].
  { split_and!; try done.
    intros Hin. by apply elem_of_nil in Hin. }
  destruct (row w) as [[found|]|e]; cbn [fst snd].
  - split_and!; try done.
    + intros Hnone. by destruct (Hnone found).
    + intros Hin. apply list_elem_of_singleton in Hin. done.
  - destruct create; [destruct (insert_error w)|]; cbn [fst snd];
      (split_and!; try done; auto).
    + intros Hnone. by destruct (Hnone {| mxid := m; gcid := None |}).
    + intros Hin. apply list_elem_of_singleton in Hin. done.
  - split_and!; try done.
    intros Hin. apply list_elem_of_singleton in Hin. done.
Qed.

(** Bob is unknown and creation is not allowed; then it is. *)
Lemma get_by_mxid_creates_witness :
  get_by_mxid (example_world (Answer None))
    "@googlechat_7:example.org" true empty_index = (empty_index, [], Ok None) ∧
  (get_by_mxid (example_world (Answer None))
     "@bob:example.org" false empty_index).1.1 = empty_index.
Proof.
  destruct (get_by_mxid_creates_only_when_asked (example_world (Answer None))
    "@googlechat_7:example.org" true empty_index) as (H1 & _).
  destruct (get_by_mxid_creates_only_when_asked (example_world (Answer None))
    "@bob:example.org" false empty_index) as (_ & H2 & _).
  split; [apply H1; by left|]. by apply H2.
Defined.

(** A lookup by remote id that returns an account with that id, the id
    not empty, leaves it in the index under the id, and the same lookup
    afterwards returns the same object without asking the database. An
    account that came from the database is also the one now registered under
    its [mxid], whatever was registered there before. *)
Theorem get_by_gcid_memoizes (w w' : World) (g : string) (ix ix' : Index)
    (tr : list Query) (user : Entry) :
  get_by_gcid w g ix = (ix', tr, Ok (Some user)) →
  gcid user = Some g → g ≠ "" →
  by_gcid ix' !! g = Some user ∧
  get_by_gcid w' g ix' = (ix', [], Ok (Some user)) ∧
  (tr ≠ [] → by_mxid ix' !! mxid user = Some user).
Proof.
  intros Hget Hg Hne. unfold get_by_gcid in *.
  assert (by_gcid ix' !! g = Some user ∧
          (tr ≠ [] → by_mxid ix' !! mxid user = Some user)) as [Hin Hmx].
  { destruct (by_gcid ix !! g) as [known|] eqn:Hk.
    - by injection Hget as <- <- <-.
    - destruct (row w) as [[found|]|e]; [|done|done].
      injection Hget as <- <- <-. unfold _add_to_cache.
      cbn [by_gcid by_mxid]. rewrite Hg.
      apply String.eqb_neq in Hne. rewrite Hne.
      split; [|intros _]; apply lookup_insert_eq. }
  split_and!; try done. by rewrite Hin.
Qed.

Lemma get_by_gcid_memoizes_witness :
  let first := get_by_gcid (example_world (Answer (Some alice))) "1001"
                 empty_index in
  get_by_gcid (example_world (Answer None)) "1001" first.1.1 =
    (first.1.1, [], Ok (Some alice)) ∧
  by_mxid first.1.1 !! "@alice:example.org" = Some alice.
Proof.
  intros first.
  destruct (get_by_gcid_memoizes (example_world (Answer (Some alice)))
    (example_world (Answer None)) "1001" empty_index first.1.1 first.1.2 alice
    eq_refl eq_refl) as (_ & H2 & H3); [done|].
  split; [exact H2|]. by apply H3.
Defined.





End RegistryMore.
